(** * string_view.cpp: conversion probing, overload selection and temporaries

    A shallow embedding of [src/string_view/string_view.cpp].

    The translation unit has two phases, and so has this development:

    - a compile-time phase: the trait [is_temp_string_convertible], the
      [enable_if] constraint of the templated constructor, the
      [if constexpr] chain in its body and the choice between that
      constructor and a conversion function of the source class.  These
      are total functions over a description of the source class;
    - a run-time phase: objects with a lifetime, the two plain
      constructors of [BasicStringView], the stream inserter, [f] and the
      statements of [main].  These are written in a state monad over a
      store of objects and the text written to [std::cout]; a computation
      has no result where the program has no defined behaviour. *)

From Stdlib Require Import Ascii String.
From stdpp Require Import base tactics option list.

Open Scope list_scope.

(** ** Source classes

    Every class of namespace [MyLib] has one data member, the string [s]
    with a default member initialiser, and some of four conversion
    operators, all of them [const] member functions that return [s] in the
    form of their target type, two of them after printing a line. *)

Inductive conv_target : Type :=
  | ToString      (* operator std::string () const *)
  | ToCStr        (* operator const char * () const *)
  | ToStringRef   (* operator const std::string & () const *)
  | ToView.       (* operator MyStd::StringView () const *)

(** A class is given by the initial value of [s] and, for each target,
    [None] when the operator is not declared and [Some d] when it is,
    where [d] lists the lines its body prints before returning. *)
Record class_decl : Type := {
  s_init : string;
  op_string : option (list string);
  op_cstr : option (list string);
  op_string_ref : option (list string);
  op_view : option (list string);
}.

Definition conv_op (T : class_decl) (t : conv_target) : option (list string) :=
  match t with
  | ToString => op_string T
  | ToCStr => op_cstr T
  | ToStringRef => op_string_ref T
  | ToView => op_view T
  end.

Definition exposes (T : class_decl) (t : conv_target) : bool :=
  match conv_op T t with Some _ => true | None => false end.

(** ** The fragment of the language the templates rely on *)
Module Cxx.

Inductive category : Type := LValue | XValue | PRValue.

(** An expression of class type: its value category and whether the
    object expression is const. *)
Record expr : Type := { cat : category; is_const : bool }.

(** [std::declval< T >()] for an object type [T] has type [T &&]: a
    non-const xvalue. *)
Definition declval : expr := {| cat := XValue; is_const := false |}.

(** [std::as_const( e )]: the overload taking [T &] adds const to an
    lvalue; the overload taking [const T &&] is deleted, and it is the
    one chosen for every rvalue. *)
Definition as_const (e : expr) : option expr :=
  match cat e with
  | LValue => Some {| cat := LValue; is_const := true |}
  | XValue | PRValue => None
  end.

(** [e.operator X ()]: the explicit call of a conversion function by its
    name finds the operator declared for exactly that target.  The
    operators are const members, callable on const and non-const
    objects alike. *)
Definition member_call (T : class_decl) (e : expr) (t : conv_target) : bool :=
  exposes T t.

(** [std::is_convertible< T, const char * >]: one user-defined
    conversion at most, so only the operator to a pointer serves. *)
Definition is_convertible_cstr (T : class_decl) : bool :=
  exposes T ToCStr.

(** [std::is_convertible< T, std::string >]: the operators yielding
    [std::string] or a reference to it are the candidates; with both
    declared neither is better and the conversion is ambiguous. *)
Definition is_convertible_string (T : class_decl) : bool :=
  xorb (exposes T ToString) (exposes T ToStringRef).

(** [std::is_convertible< T, const std::string & >]: binds directly to
    the lvalue of the reference operator when there is one, and to the
    temporary of the value operator otherwise. *)
Definition is_convertible_string_cref (T : class_decl) : bool :=
  exposes T ToStringRef || exposes T ToString.

(** *** Objects, lifetimes and [std::cout] *)

Definition nul : ascii := Ascii.zero.
Definition nl : ascii := ascii_of_nat 10.

Definition chars (s : string) : list ascii := list_ascii_of_string s.

(** [std::cout << "text" << std::endl] writes the text and a newline. *)
Definition line (s : string) : list ascii := chars s ++ [nl].

Inductive object : Type :=
  | CharArray (bytes : list ascii)      (* an array of char, such as a string literal *)
  | StdString (content : list ascii).   (* a std::string holding [content] *)

(** The characters a pointer into the object ranges over: a
    [std::string] keeps a terminator after its [size()] characters. *)
Definition buffer (o : object) : list ascii :=
  match o with
  | CharArray bs => bs
  | StdString cs => cs ++ [nul]
  end.

Record cell : Type := { obj : object; alive : bool }.

Record state : Type := { store : list cell; cout : list ascii }.

(** A pointer to char: the object it points into and an offset. *)
Definition ptr : Type := nat * nat.

Definition ptr_add (p : ptr) (n : nat) : ptr := (p.1, p.2 + n).

(** Computations over the state; [None] where the behaviour is
    undefined. *)
Definition M (A : Type) : Type := state -> option (A * state).

Definition ret {A} (a : A) : M A := fun st => Some (a, st).

Definition bind {A B} (m : M A) (k : A -> M B) : M B :=
  fun st => match m st with
            | Some (a, st') => k a st'
            | None => None
            end.

Definition undefined {A} : M A := fun _ => None.

Declare Scope cxx_scope.
Delimit Scope cxx_scope with cxx.
Notation "x <- m ;; k" := (bind m (fun x => k))
  (at level 100, m at next level, right associativity) : cxx_scope.
Notation "m ;; k" := (bind m (fun _ => k))
  (at level 100, right associativity) : cxx_scope.
Open Scope cxx_scope.

(** Writing to [std::cout]. *)
Definition put (cs : list ascii) : M unit :=
  fun st => Some (tt, {| store := store st; cout := cout st ++ cs |}).

Fixpoint put_lines (ls : list string) : M unit :=
  match ls with
  | [] => ret tt
  | l :: ls' => put (line l);; put_lines ls'
  end.

(** The start of an object's lifetime: a fresh place in the store. *)
Definition new_object (o : object) : M nat :=
  fun st => Some (length (store st),
                  {| store := store st ++ [{| obj := o; alive := true |}];
                     cout := cout st |}).

(** Access to an object within its lifetime. *)
Definition object_at (b : nat) : M object :=
  fun st => match store st !! b with
            | Some c => if alive c then Some (obj c, st) else None
            | None => None
            end.

(** The end of an object's lifetime: its storage is released. *)
Definition end_lifetime (b : nat) : M unit :=
  o <- object_at b;;
  fun st => Some (tt, {| store := <[b := {| obj := o; alive := false |}]> (store st);
                         cout := cout st |}).

(** Assignment to a [std::string] object. *)
Definition assign_string (b : nat) (v : list ascii) : M unit :=
  o <- object_at b;;
  match o with
  | StdString _ =>
      fun st => Some (tt, {| store := <[b := {| obj := StdString v; alive := true |}]> (store st);
                             cout := cout st |})
  | CharArray _ => undefined
  end.

(** [*p] *)
Definition deref (p : ptr) : M ascii :=
  o <- object_at p.1;;
  match buffer o !! p.2 with
  | Some c => ret c
  | None => undefined
  end.

(** [strlen]: the number of characters before the first terminator;
    running off the array has no defined behaviour. *)
Fixpoint scan (bs : list ascii) : option nat :=
  match bs with
  | [] => None
  | c :: bs' => if Ascii.eqb c nul then Some 0 else S <$> scan bs'
  end.

Definition strlen (s : ptr) : M nat :=
  o <- object_at s.1;;
  match scan (drop s.2 (buffer o)) with
  | Some n => ret n
  | None => undefined
  end.

(** [std::copy( first, last, std::ostream_iterator< char >( os ) )]:
    [while( first != last ) os << *first++;] The two pointers have to
    delimit a range of one object. *)
Fixpoint copy_loop (n : nat) (p : ptr) : M unit :=
  match n with
  | 0 => ret tt
  | S n' => c <- deref p;; put [c];; copy_loop n' (ptr_add p 1)
  end.

Definition copy_to_ostream (first last : ptr) : M unit :=
  if decide (first.1 = last.1 /\ first.2 <= last.2)
  then copy_loop (last.2 - first.2) first
  else undefined.

End Cxx.

Import Cxx.

(** ** Objects of a source class

    An object of a class holds its member [s]; it is known by the place of
    [s] in the store.  [MyLib::MyObject0 o0;] starts its lifetime. *)
Definition instance : Type := nat.

Definition declare_object (T : class_decl) : M instance :=
  new_object (StdString (chars (s_init T))).

(** [operator std::string () const { ...; return s; }]: a copy of [s]. *)
Definition operator_string (T : class_decl) (a : instance) : M (list ascii) :=
  match op_string T with
  | Some d =>
      put_lines d;;
      o <- object_at a;;
      match o with
      | StdString cs => ret cs
      | CharArray _ => undefined
      end
  | None => undefined
  end.

(** [operator const char * () const { return s.c_str(); }] *)
Definition operator_cstr (T : class_decl) (a : instance) : M ptr :=
  match op_cstr T with
  | Some d => put_lines d;; object_at a;; ret (a, 0)
  | None => undefined
  end.

(** [operator const std::string & () const { return s; }]: [s] itself. *)
Definition operator_string_ref (T : class_decl) (a : instance) : M nat :=
  match op_string_ref T with
  | Some d => put_lines d;; ret a
  | None => undefined
  end.

(** [struct Verify]: its destructor. *)
Definition Verify_dtor : M unit := put (line "Killing lifetime extension").

(** ** namespace MyStd *)
Module MyStd.

(** The first partial specialisation of [is_temp_string_convertible]
    is viable when [std::declval< T >().operator std::string ()] is
    well-formed. *)
Definition probe_direct (T : class_decl) : bool :=
  Cxx.member_call T Cxx.declval ToString.

(** The second one when
    [std::as_const( std::declval< T >() ).operator std::string ()] is. *)
Definition probe_const (T : class_decl) : bool :=
  match Cxx.as_const Cxx.declval with
  | Some e => Cxx.member_call T e ToString
  | None => false
  end.

(** The values of the partial specialisations that match [T]; both
    derive from [std::true_type]. *)
Definition matching_specializations (T : class_decl) : list bool :=
  (if probe_direct T then [true] else []) ++
  (if probe_const T then [true] else []).

(** [is_temp_string_convertible< T >::value]: the primary template
    ([std::false_type]) when no specialisation matches, the
    specialisation when one does; two matching specialisations, neither
    more specialised than the other, make the instantiation ill-formed
    ([None]). *)
Definition is_temp_string_convertible (T : class_decl) : option bool :=
  match matching_specializations T with
  | [] => Some false
  | [v] => Some v
  | _ => None
  end.

(** The [enable_if] constraint of the templated constructor. *)
Definition ctor_enabled (AlienType : class_decl) : bool :=
  Cxx.is_convertible_cstr AlienType
  || Cxx.is_convertible_string AlienType
  || Cxx.is_convertible_string_cref AlienType.

(** The three branches of the lambda in the templated constructor. *)
Inductive strategy : Type :=
  | OwnedValue          (* cheat= a.operator std::string(); return cheat; *)
  | BorrowedPointer     (* return static_cast< const char * >( a ); *)
  | BorrowedReference.  (* return static_cast< const std::string & >( a ); *)

(** The [if constexpr] chain. *)
Definition select_strategy (AlienType : class_decl) : option strategy :=
  match is_temp_string_convertible AlienType with
  | None => None
  | Some true => Some OwnedValue
  | Some false =>
      if Cxx.is_convertible_cstr AlienType then Some BorrowedPointer
      else Some BorrowedReference
  end.

(** *** Copy-initialisation of a [StringView] from an object of a class

    The candidates are the converting constructors of [BasicStringView]
    and the conversion functions of the source class that yield a
    [StringView].  No user-defined conversion is applied to the argument
    of a constructor here, which leaves the constructors from
    [const char *] and from [const std::string &] (and the copy
    constructor) out; the templated constructor takes part when its
    constraint holds. *)
Inductive candidate : Type :=
  | ConversionFunction   (* AlienType::operator MyStd::StringView () const *)
  | ProbingConstructor.  (* BasicStringView( const AlienType &, ... ) *)

Definition viable (AlienType : class_decl) : list candidate :=
  (if exposes AlienType ToView then [ConversionFunction] else []) ++
  (if ctor_enabled AlienType then [ProbingConstructor] else []).

Definition is_template (c : candidate) : bool :=
  match c with
  | ConversionFunction => false
  | ProbingConstructor => true
  end.

(** Both candidates bind a [const AlienType &] to the argument, so their
    conversion sequences tie, and a function that is not a template
    specialisation is preferred to one that is. *)
Definition best_viable (cs : list candidate) : option candidate :=
  match filter (λ c, is_template c = false) cs with
  | [c] => Some c
  | _ :: _ :: _ => None
  | [] => match cs with
          | [c] => Some c
          | _ => None
          end
  end.

(** [None]: the initialisation does not compile. *)
Definition resolve_copy_init (AlienType : class_decl) : option candidate :=
  best_viable (viable AlienType).

(** *** class BasicStringView: run-time part *)

Record BasicStringView : Type := { first : ptr; last : ptr }.

(** [BasicStringView( const char *s ) : first( s ), last( s + strlen( s ) ) {}] *)
Definition BasicStringView_cstr (s : ptr) : M BasicStringView :=
  n <- strlen s;;
  ret {| first := s; last := ptr_add s n |}.

(** [BasicStringView( const std::string &s )
       : first( &s[ 0 ] ), last( &s[ 0 ] + s.size() ) {}] *)
Definition BasicStringView_string (s : nat) : M BasicStringView :=
  o <- object_at s;;
  match o with
  | StdString cs => ret {| first := (s, 0); last := ptr_add (s, 0) (length cs) |}
  | CharArray _ => undefined
  end.

(** The templated constructor: the lambda runs the branch chosen by the
    [if constexpr] chain, and the view it returns initialises the
    object.  [cheat] is the string bound to the defaulted parameter;
    each [return] builds the view with one of the two constructors
    above, which are preferred to a new specialisation of the template. *)
Definition BasicStringView_alien (AlienType : class_decl) (a : instance)
    (cheat : nat) : M BasicStringView :=
  match select_strategy AlienType with
  | Some OwnedValue =>
      put (line "Extending lifetime");;
      tmp <- operator_string AlienType a;;
      assign_string cheat tmp;;
      BasicStringView_string cheat
  | Some BorrowedPointer =>
      p <- operator_cstr AlienType a;;
      BasicStringView_cstr p
  | Some BorrowedReference =>
      r <- operator_string_ref AlienType a;;
      BasicStringView_string r
  | None => undefined
  end.

Definition begin_ (v : BasicStringView) : ptr := first v.
Definition end_ (v : BasicStringView) : ptr := last v.

(** [end - begin], for two pointers into one object. *)
Definition extent (v : BasicStringView) : nat := (end_ v).2 - (begin_ v).2.

(** [operator << ( std::ostream &os, const BasicStringView &v )] *)
Definition operator_shl (v : BasicStringView) : M unit :=
  copy_to_ostream (begin_ v) (end_ v).

End MyStd.

Import MyStd.

(** ** namespace MyLib *)
Module MyLib.

(** [operator MyStd::StringView () const { ...; return s; }]: the view
    returned is built from [s] by the constructor taking a
    [const std::string &]. *)
Definition operator_view (T : class_decl) (a : instance) : M BasicStringView :=
  match op_view T with
  | Some d => put_lines d;; BasicStringView_string a
  | None => undefined
  end.

Definition MyObject0 : class_decl :=
  {| s_init := "Hello"; op_string := None; op_cstr := Some [];
     op_string_ref := Some []; op_view := None |}.

Definition MyObject1 : class_decl :=
  {| s_init := "Hello world"; op_string := Some ["Needs extension"%string];
     op_cstr := None; op_string_ref := None; op_view := None |}.

Definition MyObject2 : class_decl :=
  {| s_init := "Hello world"; op_string := None; op_cstr := Some [];
     op_string_ref := None; op_view := None |}.

Definition MyObject3 : class_decl :=
  {| s_init := "Hello world"; op_string := None; op_cstr := None;
     op_string_ref := Some []; op_view := None |}.

Definition MyObject4 : class_decl :=
  {| s_init := "Hello world"; op_string := None; op_cstr := None;
     op_string_ref := Some []; op_view := Some ["Best choice!"%string] |}.

End MyLib.

(** ** Initialisation of a [StringView] from an object, and [f] *)

(** The temporaries of a full-expression that have a destructor to run
    or storage to release; a [facepunch] has neither. *)
Inductive temporary : Type :=
  | TmpString (b : nat)   (* the std::string bound to [cheat] *)
  | TmpVerify.            (* the defaulted [Verify] argument *)

Definition destroy (t : temporary) : M unit :=
  match t with
  | TmpString b => end_lifetime b
  | TmpVerify => Verify_dtor
  end.

Fixpoint destroy_all (ts : list temporary) : M unit :=
  match ts with
  | [] => ret tt
  | t :: ts' => destroy t;; destroy_all ts'
  end.

(** Copy-initialisation of a [StringView] from the object [a] of class
    [T].  The default arguments of the templated constructor are
    temporaries of the calling expression; the result lists them in the
    order of their destruction, for the end of the full-expression. *)
Definition copy_init (T : class_decl) (a : instance)
    : M (BasicStringView * list temporary) :=
  match resolve_copy_init T with
  | Some ConversionFunction =>
      v <- MyLib.operator_view T a;;
      ret (v, [])
  | Some ProbingConstructor =>
      cheat <- new_object (StdString []);;
      v <- BasicStringView_alien T a cheat;;
      ret (v, [TmpVerify; TmpString cheat])
  | None => undefined
  end.

(** [void f( MyStd::StringView v )] *)
Definition f (v : BasicStringView) : M unit :=
  put (chars "F Called with: ");;
  operator_shl v;;
  put (chars "...");;
  put [nl].

(** The expression statement [f( a );] *)
Definition call_f (T : class_decl) (a : instance) : M unit :=
  r <- copy_init T a;;
  f r.1;;
  destroy_all r.2.

(** The declaration statement [MyStd::StringView sanity= a;] *)
Definition declare_view (T : class_decl) (a : instance) : M BasicStringView :=
  r <- copy_init T a;;
  destroy_all r.2;;
  ret r.1.

(** The declaration [MyStd::StringView v( a, MyStd::StringView::facepunch{} );]
    names the templated constructor by its second argument; [cheat] and
    the [Verify] argument are defaulted as before. *)
Definition direct_init (T : class_decl) (a : instance) : M BasicStringView :=
  cheat <- new_object (StdString []);;
  v <- BasicStringView_alien T a cheat;;
  destroy_all [TmpVerify; TmpString cheat];;
  ret v.

(** Whether [f( a )] compiles for an object of class [T]. *)
Definition accepted (T : class_decl) : bool :=
  match resolve_copy_init T with
  | Some ConversionFunction => true
  | Some ProbingConstructor =>
      match select_strategy T with Some _ => true | None => false end
  | None => false
  end.

(** ** main *)

Definition esc : ascii := ascii_of_nat 27.

(** The five calls [f( o0 ); ... f( o4 );] *)
Definition main_calls (o0 o1 o2 o3 o4 : instance) : M unit :=
  call_f MyLib.MyObject0 o0;;
  call_f MyLib.MyObject1 o1;;
  call_f MyLib.MyObject2 o2;;
  call_f MyLib.MyObject3 o3;;
  call_f MyLib.MyObject4 o4.

(** A string literal is an array of its characters and a terminator. *)
Definition literal (s : string) : M ptr :=
  b <- new_object (CharArray (chars s ++ [nul]));;
  ret (b, 0).

(** [{ MyStd::StringView sanity= "Check 1"; ... }]  For a literal and
    for a [std::string] the plain constructors are viable themselves and
    are preferred to a specialisation of the templated one. *)
Definition check_1 : M unit :=
  p <- literal "Check 1";;
  sanity <- BasicStringView_cstr p;;
  put (line "Checked").

(** [{ std::string s= "Check 2"; MyStd::StringView sanity= s; ... }] *)
Definition check_2 : M unit :=
  s <- new_object (StdString (chars "Check 2"));;
  sanity <- BasicStringView_string s;;
  put (line "Checked 2");;
  end_lifetime s.

(** [{ ...; MyStd::StringView sanity= o1; std::string evil= "Corrupt!!!";
       std::cout << ... << sanity << ...; ... }] *)
Definition check_3 (o1 : instance) : M unit :=
  put (line "Check 3 -- this should be a problem...");;
  sanity <- declare_view MyLib.MyObject1 o1;;
  evil <- new_object (StdString (chars "Corrupt!!!"));;
  put (esc :: chars "[31mExpect corruption: ");;
  operator_shl sanity;;
  put (esc :: chars "[37m");;
  put [nl];;
  put (line "Checked 3");;
  end_lifetime evil.

(** [{ ...; MyStd::StringView sanity= o4; ... }] *)
Definition check_4 (o4 : instance) : M unit :=
  put (line "Check 4 -- this should be a problem...");;
  sanity <- declare_view MyLib.MyObject4 o4;;
  put (line "Checked 4").

Definition main : M unit :=
  o0 <- declare_object MyLib.MyObject0;;
  o1 <- declare_object MyLib.MyObject1;;
  o2 <- declare_object MyLib.MyObject2;;
  o3 <- declare_object MyLib.MyObject3;;
  o4 <- declare_object MyLib.MyObject4;;
  main_calls o0 o1 o2 o3 o4;;
  check_1;;
  check_2;;
  check_3 o1;;
  check_4 o4;;
  v <- direct_init MyLib.MyObject3 o3;;
  end_lifetime o4;;
  end_lifetime o3;;
  end_lifetime o2;;
  end_lifetime o1;;
  end_lifetime o0.

(** The state at program start. *)
Definition initial : state := {| store := []; cout := [] |}.

(** ** The trait over every template argument

    The templated constructor instantiates [is_temp_string_convertible]
    with the class of its argument, an object type whose operators are
    const member functions.  The two probes of the trait tell more types
    apart: an argument can be const-qualified or a reference, which
    decides what [std::declval] yields, and an operator can be declared
    for const objects, for non-const objects, or for both. *)
Module Trait.

(** The overloads of [operator std::string] that a class declares. *)
Record string_operators : Type := {
  const_op : bool;     (* operator std::string () const *)
  mutable_op : bool;   (* operator std::string () *)
}.

Inductive ref_kind : Type := NoRef | LRef | RRef.

(** A template argument: [X], [const X], [X &], [const X &], [X &&],
    [const X &&] for a class [X]. *)
Record argument : Type := {
  arg_ops : string_operators;
  arg_const : bool;
  arg_ref : ref_kind;
}.

(** [std::declval< T >()] has type [T &&]: an lvalue when [T] is an
    lvalue reference, an xvalue otherwise, const as [T] is. *)
Definition declval (A : argument) : Cxx.expr :=
  {| Cxx.cat := match arg_ref A with
                | LRef => Cxx.LValue
                | NoRef | RRef => Cxx.XValue
                end;
     Cxx.is_const := arg_const A |}.

(** [e.operator std::string ()] is well-formed when an overload accepts
    the object expression: the const one accepts every object, the other
    one the objects that are not const. *)
Definition member_call (ops : string_operators) (e : Cxx.expr) : bool :=
  const_op ops || (mutable_op ops && negb (Cxx.is_const e)).

(** [decltype( std::declval< T >().operator std::string () )] *)
Definition probe_direct (A : argument) : bool :=
  member_call (arg_ops A) (declval A).

(** [decltype( std::as_const( std::declval< T >() ).operator std::string () )] *)
Definition probe_const (A : argument) : bool :=
  match Cxx.as_const (declval A) with
  | Some e => member_call (arg_ops A) e
  | None => false
  end.

Definition matching_specializations (A : argument) : list bool :=
  (if probe_direct A then [true] else []) ++
  (if probe_const A then [true] else []).

(** [is_temp_string_convertible< T >::value], [None] when the
    instantiation is ambiguous. *)
Definition is_temp_string_convertible (A : argument) : option bool :=
  match matching_specializations A with
  | [] => Some false
  | [v] => Some v
  | _ => None
  end.




End Trait.

(** ** Definitions used to state the properties *)


(** A class whose only [operator std::string] is not a const member. *)
Definition mutable_only : Trait.string_operators :=
  {| Trait.const_op := false; Trait.mutable_op := true |}.

(** The text written by the lines of a diagnostic. *)
Definition flat (d : list string) : list ascii := concat (map line d).

(** The characters of [cs] before its first terminator: what [strlen]
    measures in the buffer of a string holding [cs]. *)
Fixpoint until_nul (cs : list ascii) : list ascii :=
  match cs with
  | [] => []
  | c :: cs' => if Ascii.eqb c nul then [] else c :: until_nul cs'
  end.

(** A strategy applies to a class when the class declares the operator
    the branch calls. *)
Definition applicable (T : class_decl) (st : strategy) : bool :=
  match st with
  | OwnedValue => exposes T ToString
  | BorrowedPointer => exposes T ToCStr
  | BorrowedReference => exposes T ToStringRef
  end.

(** The order of the [if constexpr] chain, as a rank. *)
Definition chain_rank (st : strategy) : nat :=
  match st with
  | OwnedValue => 3
  | BorrowedPointer => 2
  | BorrowedReference => 1
  end.

(** The priority table of the specification, restricted to the three
    strategies of the constructor: borrowed-reference > borrowed-pointer
    > owned-value. *)
Definition spec_rank (st : strategy) : nat :=
  match st with
  | BorrowedReference => 3
  | BorrowedPointer => 2
  | OwnedValue => 1
  end.

(** The constructor selects a strategy of highest rank among those that
    apply, for every class it accepts. *)
Definition selects_highest (rank : strategy -> nat) : Prop :=
  forall T st, ctor_enabled T = true -> select_strategy T = Some st ->
    applicable T st = true /\
    forall st', applicable T st' = true -> rank st' <= rank st.

(** A class that declares the three conversions to string forms. *)
Definition AllThree : class_decl :=
  {| s_init := "Hello"; op_string := Some []; op_cstr := Some [];
     op_string_ref := Some []; op_view := None |}.

(** A class whose only conversion is the one to the view itself. *)
Definition ViewOnly : class_decl :=
  {| s_init := "Hello"; op_string := None; op_cstr := None;
     op_string_ref := None; op_view := Some [] |}.

(** The text a program run from the initial state writes. *)
Definition output_of {A} (m : M A) : option string :=
  match m initial with
  | Some (_, st) => Some (string_of_list_ascii (cout st))
  | None => None
  end.

(** Whether [needle] occurs in [text]. *)
Definition occurs (needle text : string) : bool :=
  match String.index 0 needle text with
  | Some _ => true
  | None => false
  end.

(** An object within its lifetime, and one past it. *)
Definition live (o : object) : cell := {| obj := o; alive := true |}.
Definition dead (o : object) : cell := {| obj := o; alive := false |}.

(** The state after more output. *)
Definition wrote (st : state) (cs : list ascii) : state :=
  {| store := store st; cout := cout st ++ cs |}.

(** The diagnostics of the operator declared for a target. *)
Definition diag (T : class_decl) (t : conv_target) : list string :=
  match conv_op T t with
  | Some d => d
  | None => []
  end.

(** What the templated constructor writes for a class. *)
Definition ctor_text (T : class_decl) : list ascii :=
  match select_strategy T with
  | Some OwnedValue => line "Extending lifetime" ++ flat (diag T ToString)
  | Some BorrowedPointer => flat (diag T ToCStr)
  | Some BorrowedReference => flat (diag T ToStringRef)
  | None => []
  end.

(** The characters the view built by the templated constructor ranges
    over, for an object whose [s] holds [cs]: the pointer branch measures
    the string with [strlen]. *)
Definition viewed (T : class_decl) (cs : list ascii) : list ascii :=
  match select_strategy T with
  | Some BorrowedPointer => until_nul cs
  | _ => cs
  end.

(** The line [f] writes for a view ranging over [content]. *)
Definition f_text (content : list ascii) : list ascii :=
  chars "F Called with: " ++ content ++ chars "..." ++ [nl].

(** The characters of the view that initialises the parameter of [f] or a
    declared view, for an object whose [s] holds [cs]: the conversion
    function of the class, when declared, builds it from [s] itself. *)
Definition view_text (T : class_decl) (cs : list ascii) : list ascii :=
  if exposes T ToView then cs else viewed T cs.

(** Everything the statement [f( a );] writes. *)
Definition call_text (T : class_decl) (cs : list ascii) : list ascii :=
  if exposes T ToView
  then flat (diag T ToView) ++ f_text cs
  else ctor_text T ++ f_text (viewed T cs) ++ line "Killing lifetime extension".

Arguments line : simpl never.
Arguments chars : simpl never.
Arguments flat : simpl never.

(** ** Compile-time properties *)

Section Traits.

Variable T : class_decl.

(** An rvalue cannot be passed to [std::as_const], so the second
    specialisation never matches an object type. *)
Lemma probe_const_never : probe_const T = false.
Proof. reflexivity. Qed.

Lemma probe_direct_exposes : probe_direct T = exposes T ToString.
Proof. reflexivity. Qed.

Lemma temp_convertible_exposes :
  is_temp_string_convertible T = Some (exposes T ToString).
Proof.
  unfold is_temp_string_convertible, matching_specializations.
  rewrite probe_const_never, probe_direct_exposes.
  by destruct (exposes T ToString).
Qed.

Lemma exposes_declared t : exposes T t = true <-> conv_op T t <> None.
Proof. unfold exposes. destruct (conv_op T t); split; congruence. Qed.

(** The constraint holds exactly when one of the three conversions to
    a string form is declared. *)
Lemma ctor_enabled_exposes :
  ctor_enabled T =
    exposes T ToCStr || exposes T ToString || exposes T ToStringRef.
Proof.
  unfold ctor_enabled, Cxx.is_convertible_cstr, Cxx.is_convertible_string,
    Cxx.is_convertible_string_cref.
  by destruct (exposes T ToCStr), (exposes T ToString), (exposes T ToStringRef).
Qed.

Lemma select_strategy_chain :
  select_strategy T =
    Some (if exposes T ToString then OwnedValue
          else if exposes T ToCStr then BorrowedPointer
          else BorrowedReference).
Proof.
  unfold select_strategy. rewrite temp_convertible_exposes.
  unfold Cxx.is_convertible_cstr.
  by destruct (exposes T ToString), (exposes T ToCStr).
Qed.

Lemma resolve_with_view :
  exposes T ToView = true -> resolve_copy_init T = Some ConversionFunction.
Proof.
  intros Hv. unfold resolve_copy_init, viable. rewrite Hv.
  by destruct (ctor_enabled T).
Qed.

Lemma resolve_without_view :
  exposes T ToView = false ->
  resolve_copy_init T =
    if ctor_enabled T then Some ProbingConstructor else None.
Proof.
  intros Hv. unfold resolve_copy_init, viable. rewrite Hv.
  by destruct (ctor_enabled T).
Qed.

End Traits.

(** The sample classes: what the trait, the constraint, the chain and the
    overload resolution give for each. *)
Example as_const_of_lvalue :
  Cxx.as_const {| Cxx.cat := Cxx.LValue; Cxx.is_const := false |}
  = Some {| Cxx.cat := Cxx.LValue; Cxx.is_const := true |}.
Proof. reflexivity. Qed.

Example as_const_of_declval : Cxx.as_const Cxx.declval = None.
Proof. reflexivity. Qed.

Example samples_classified :
  map is_temp_string_convertible
    [MyLib.MyObject0; MyLib.MyObject1; MyLib.MyObject2; MyLib.MyObject3;
     MyLib.MyObject4]
  = [Some false; Some true; Some false; Some false; Some false].
Proof. reflexivity. Qed.

Example samples_selected :
  map select_strategy
    [MyLib.MyObject0; MyLib.MyObject1; MyLib.MyObject2; MyLib.MyObject3]
  = [Some BorrowedPointer; Some OwnedValue; Some BorrowedPointer;
     Some BorrowedReference].
Proof. reflexivity. Qed.

Example samples_resolved :
  map resolve_copy_init
    [MyLib.MyObject0; MyLib.MyObject1; MyLib.MyObject2; MyLib.MyObject3;
     MyLib.MyObject4]
  = [Some ProbingConstructor; Some ProbingConstructor;
     Some ProbingConstructor; Some ProbingConstructor;
     Some ConversionFunction].
Proof. reflexivity. Qed.

(** C2, as the specification has it, fails: [MyObject0] declares both the
    conversion to a reference to its string and the one to a pointer, and
    the constructor selects the pointer branch, which the table of the
    specification ranks below the reference branch. *)
Lemma C2_spec_priority_counterexample :
  applicable MyLib.MyObject0 BorrowedReference = true /\
  applicable MyLib.MyObject0 BorrowedPointer = true /\
  ctor_enabled MyLib.MyObject0 = true /\
  select_strategy MyLib.MyObject0 = Some BorrowedPointer /\
  select_strategy MyLib.MyObject0 <> Some BorrowedReference /\
  applicable AllThree BorrowedReference = true /\
  select_strategy AllThree = Some OwnedValue /\
  ~ selects_highest spec_rank.
Proof.
  repeat split; try reflexivity; try discriminate.
  intros H.
  destruct (H MyLib.MyObject0 BorrowedPointer eq_refl eq_refl) as [_ Hmax].
  specialize (Hmax BorrowedReference eq_refl). simpl in Hmax. lia.
Qed.

(** C2, amended. For every class the constructor accepts, the strategy
    selected applies to the class and is the highest in the order of the
    [if constexpr] chain, owned-value > borrowed-pointer >
    borrowed-reference, among those that apply; a class declaring the
    conversions to a reference and to a pointer gets the pointer branch,
    and the value-producing conversion wins over both. *)
Theorem C2_selects_by_chain_order :
  selects_highest chain_rank /\
  (forall T, exposes T ToString = false -> exposes T ToCStr = true ->
     exposes T ToStringRef = true ->
     select_strategy T = Some BorrowedPointer) /\
  (forall T, exposes T ToString = true ->
     select_strategy T = Some OwnedValue).
Proof.
  split; [| split].
  - intros T st Hen. rewrite select_strategy_chain.
    rewrite ctor_enabled_exposes in Hen. intros Hsel.
    destruct (exposes T ToString) eqn:Hs, (exposes T ToCStr) eqn:Hc,
      (exposes T ToStringRef) eqn:Hr; simplify_eq; simpl in *; try done;
      (split; [done |]); intros [] Hap; simpl in *; try lia; congruence.
  - intros T Hs Hc _. rewrite select_strategy_chain. by rewrite Hs, Hc.
  - intros T Hs. rewrite select_strategy_chain. by rewrite Hs.
Qed.

(** [MyObject0] gets the pointer branch. *)
Lemma C2_selects_by_chain_order_witness :
  select_strategy MyLib.MyObject0 = Some BorrowedPointer.
Proof.
  exact (proj1 (proj2 C2_selects_by_chain_order) MyLib.MyObject0
           eq_refl eq_refl eq_refl).
Defined.

(** C5, as the specification has it, fails: a class whose only conversion
    is the one to the view exposes none of the three conversions, and
    [f] accepts an object of it. *)
Lemma C5_rejection_counterexample :
  Cxx.is_convertible_cstr ViewOnly = false /\
  Cxx.is_convertible_string ViewOnly = false /\
  Cxx.is_convertible_string_cref ViewOnly = false /\
  ctor_enabled ViewOnly = false /\
  resolve_copy_init ViewOnly = Some ConversionFunction /\
  accepted ViewOnly = true /\
  output_of (a <- declare_object ViewOnly;; call_f ViewOnly a)
    = Some (string_of_list_ascii (line "F Called with: Hello...")).
Proof. repeat split; reflexivity. Qed.

(** C5, amended. A class exposing none of the three conversions does not
    satisfy the constraint of the templated constructor, which is then
    not a candidate; passing an object of it to [f] does not compile,
    unless the class declares a conversion to the view itself, which is
    then the function called. *)
Theorem C5_rejected_without_conversion (T : class_decl) :
  Cxx.is_convertible_cstr T = false ->
  Cxx.is_convertible_string T = false ->
  Cxx.is_convertible_string_cref T = false ->
  ctor_enabled T = false /\
  ~ In ProbingConstructor (viable T) /\
  (exposes T ToView = false ->
     resolve_copy_init T = None /\ accepted T = false /\
     forall a st, call_f T a st = None) /\
  (exposes T ToView = true ->
     resolve_copy_init T = Some ConversionFunction).
Proof.
  intros Hc Hs Hr.
  assert (ctor_enabled T = false) as Hen
    by (unfold ctor_enabled; by rewrite Hc, Hs, Hr).
  split; [done |]. split; [| split].
  - unfold viable. rewrite Hen.
    destruct (exposes T ToView); simpl; intuition discriminate.
  - intros Hv.
    assert (resolve_copy_init T = None) as Hres
      by (rewrite resolve_without_view by done; by rewrite Hen).
    split; [done |]. split.
    + unfold accepted. by rewrite Hres.
    + intros a st. unfold call_f, copy_init. by rewrite Hres.
  - apply resolve_with_view.
Qed.

(** A class with no conversion operator at all is rejected. *)
Lemma C5_rejected_without_conversion_witness :
  accepted {| s_init := "Hello"; op_string := None; op_cstr := None;
              op_string_ref := None; op_view := None |} = false.
Proof.
  exact (proj1 (proj2 (proj1 (proj2 (proj2
    (C5_rejected_without_conversion
       {| s_init := "Hello"; op_string := None; op_cstr := None;
          op_string_ref := None; op_view := None |}
       eq_refl eq_refl eq_refl))) eq_refl))).
Defined.

(** ** Run-time properties *)

Section Run.

Implicit Types (st : state) (cs : list ascii) (o : object) (b n : nat).

Lemma bind_run {A B} (m : M A) (k : A -> M B) st x st' :
  m st = Some (x, st') -> bind m k st = k x st'.
Proof. intros H. unfold bind. by rewrite H. Qed.

Lemma bind_undefined {A B} (m : M A) (k : A -> M B) st :
  m st = None -> bind m k st = None.
Proof. intros H. unfold bind. by rewrite H. Qed.

Lemma wrote_nil st : wrote st [] = st.
Proof. destruct st. unfold wrote; simpl. by rewrite app_nil_r. Qed.

Lemma wrote_wrote st cs1 cs2 : wrote (wrote st cs1) cs2 = wrote st (cs1 ++ cs2).
Proof. unfold wrote; simpl. by rewrite app_assoc. Qed.

Lemma put_run cs st : put cs st = Some (tt, wrote st cs).
Proof. reflexivity. Qed.

Lemma put_lines_run d st : put_lines d st = Some (tt, wrote st (flat d)).
Proof.
  revert st. induction d as [| l d IH]; intros st; simpl.
  - unfold ret. by rewrite wrote_nil.
  - erewrite bind_run by apply put_run. rewrite IH, wrote_wrote. done.
Qed.

Lemma object_at_live st b o :
  store st !! b = Some (live o) -> object_at b st = Some (o, st).
Proof. intros H. unfold object_at. by rewrite H. Qed.

Lemma object_at_dead st b o :
  store st !! b = Some (dead o) -> object_at b st = None.
Proof. intros H. unfold object_at. by rewrite H. Qed.

Lemma deref_dead st b o off :
  store st !! b = Some (dead o) -> deref (b, off) st = None.
Proof.
  intros H. unfold deref. apply bind_undefined. by eapply object_at_dead.
Qed.

Lemma end_lifetime_run st b o :
  store st !! b = Some (live o) ->
  end_lifetime b st =
    Some (tt, {| store := <[b := dead o]> (store st); cout := cout st |}).
Proof.
  intros H. unfold end_lifetime.
  by erewrite bind_run by (by apply object_at_live).
Qed.

Lemma scan_terminated cs rest :
  Forall (fun c => c <> nul) cs -> scan (cs ++ nul :: rest) = Some (length cs).
Proof.
  induction 1 as [| c cs Hc _ IH]; simpl.
  - reflexivity.
  - destruct (Ascii.eqb_spec c nul) as [-> | _]; [done |]. by rewrite IH.
Qed.

Lemma scan_until_nul cs : scan (cs ++ [nul]) = Some (length (until_nul cs)).
Proof.
  induction cs as [| c cs IH]; simpl; [done |].
  destruct (Ascii.eqb c nul); [done |]. by rewrite IH.
Qed.

Lemma until_nul_prefix cs :
  take (length (until_nul cs)) (cs ++ [nul]) = until_nul cs.
Proof.
  induction cs as [| c cs IH]; simpl; [done |].
  destruct (Ascii.eqb c nul); simpl; [done |]. by rewrite IH.
Qed.

Lemma until_nul_length cs : length (until_nul cs) <= length cs.
Proof.
  induction cs as [| c cs IH]; simpl; [done |].
  destruct (Ascii.eqb c nul); simpl; lia.
Qed.

(** The loop of [std::copy] writes the characters it ranges over. *)
Lemma copy_loop_run n : forall off st b o,
  store st !! b = Some (live o) ->
  off + n <= length (buffer o) ->
  copy_loop n (b, off) st =
    Some (tt, wrote st (take n (drop off (buffer o)))).
Proof.
  induction n as [| n IH]; intros off st b o Hb Hlen; simpl.
  - unfold ret. by rewrite take_0, wrote_nil.
  - destruct (lookup_lt_is_Some_2 (buffer o) off) as [c Hc]; [lia |].
    unfold deref; simpl.
    erewrite bind_run by (erewrite bind_run by (by apply object_at_live);
                          rewrite Hc; reflexivity).
    erewrite bind_run by apply put_run.
    unfold ptr_add; simpl.
    rewrite (IH (off + 1) (wrote st [c]) b o) by (simpl; done || lia).
    rewrite wrote_wrote, (drop_S _ _ _ Hc), Nat.add_1_r. done.
Qed.

Lemma shl_run st v b off n o :
  first v = (b, off) -> last v = (b, off + n) ->
  store st !! b = Some (live o) ->
  off + n <= length (buffer o) ->
  operator_shl v st = Some (tt, wrote st (take n (drop off (buffer o)))).
Proof.
  intros Hf Hl Hb Hlen. unfold operator_shl, begin_, end_, copy_to_ostream.
  rewrite Hf, Hl; simpl.
  case_decide as Hd; [| exfalso; apply Hd; split; [done | lia]].
  replace (off + n - off) with n by lia. by apply copy_loop_run.
Qed.

Lemma f_run st v b off n o :
  first v = (b, off) -> last v = (b, off + n) ->
  store st !! b = Some (live o) ->
  off + n <= length (buffer o) ->
  f v st = Some (tt, wrote st (chars "F Called with: " ++
                               take n (drop off (buffer o)) ++
                               chars "..." ++ [nl])).
Proof.
  intros Hf Hl Hb Hlen. unfold f.
  erewrite bind_run by apply put_run.
  erewrite bind_run by (by eapply shl_run).
  erewrite bind_run by apply put_run.
  rewrite put_run, !wrote_wrote, <- ?app_assoc. done.
Qed.

Lemma string_view_run st b cs :
  store st !! b = Some (live (StdString cs)) ->
  BasicStringView_string b st =
    Some ({| first := (b, 0); last := (b, 0 + length cs) |}, st).
Proof.
  intros Hb. unfold BasicStringView_string.
  by erewrite bind_run by (by apply object_at_live).
Qed.

Lemma string_prefix cs : take (length cs) (drop 0 (cs ++ [nul])) = cs.
Proof. by rewrite drop_0, take_app_length. Qed.

End Run.

(** C8. A view constructed from a pointer to [L] characters followed by a
    terminator ranges over exactly those [L] characters, and streaming it
    writes exactly them, without the terminator. *)
Theorem C8_view_of_literal (pre cs post : list ascii) (st : state) (b : nat) :
  Forall (fun c => c <> nul) cs ->
  store st !! b = Some (live (CharArray (pre ++ cs ++ nul :: post))) ->
  exists v,
    BasicStringView_cstr (b, length pre) st = Some (v, st) /\
    (begin_ v).1 = (end_ v).1 /\
    extent v = length cs /\
    operator_shl v st = Some (tt, wrote st cs).
Proof.
  intros Hcs Hb.
  exists {| first := (b, length pre); last := (b, length pre + length cs) |}.
  split; [| split; [done | split]].
  - unfold BasicStringView_cstr, strlen; simpl.
    erewrite bind_run; cycle 1.
    { erewrite bind_run by (by apply object_at_live). simpl.
      rewrite drop_app_length, scan_terminated by done. reflexivity. }
    reflexivity.
  - unfold extent; simpl. lia.
  - erewrite shl_run; [| reflexivity | reflexivity | exact Hb |].
    + simpl. by rewrite drop_app_length, take_app_length.
    + simpl. rewrite !length_app; simpl. lia.
Qed.

(** The literal of Check 1: streaming the view writes [Check 1]. *)
Lemma C8_view_of_literal_witness :
  exists v,
    BasicStringView_cstr (0, 0)
      {| store := [live (CharArray (chars "Check 1" ++ [nul]))]; cout := [] |}
      = Some (v, {| store := [live (CharArray (chars "Check 1" ++ [nul]))];
                    cout := [] |}) /\
    (begin_ v).1 = (end_ v).1 /\
    extent v = 7 /\
    operator_shl v
      {| store := [live (CharArray (chars "Check 1" ++ [nul]))]; cout := [] |}
      = Some (tt, {| store := [live (CharArray (chars "Check 1" ++ [nul]))];
                     cout := chars "Check 1" |}).
Proof.
  apply (C8_view_of_literal [] (chars "Check 1") []
           {| store := [live (CharArray (chars "Check 1" ++ [nul]))]; cout := [] |} 0).
  - repeat constructor; discriminate.
  - reflexivity.
Defined.

(** C10. A view constructed from a [std::string] ranges over [size()]
    characters whatever they are, terminators included; it is empty when
    the string is, and streaming it writes exactly the characters of the
    string. *)
Theorem C10_view_of_string (cs : list ascii) (st : state) (b : nat) :
  store st !! b = Some (live (StdString cs)) ->
  exists v,
    BasicStringView_string b st = Some (v, st) /\
    (begin_ v).1 = (end_ v).1 /\
    extent v = length cs /\
    (cs = [] -> begin_ v = end_ v) /\
    operator_shl v st = Some (tt, wrote st cs).
Proof.
  intros Hb.
  exists {| first := (b, 0); last := (b, 0 + length cs) |}.
  split; [by apply string_view_run |].
  split; [done |]. split; [unfold extent; simpl; lia |].
  split; [by intros -> |].
  erewrite shl_run; [| reflexivity | reflexivity | exact Hb |].
  - by rewrite string_prefix.
  - simpl. rewrite length_app; simpl. lia.
Qed.

(** A string with an embedded terminator: all three characters are in
    the range and are written. *)
Lemma C10_view_of_string_witness :
  exists v,
    BasicStringView_string 0
      {| store := [live (StdString ["a"%char; nul; "b"%char])]; cout := [] |}
      = Some (v, {| store := [live (StdString ["a"%char; nul; "b"%char])];
                    cout := [] |}) /\
    (begin_ v).1 = (end_ v).1 /\
    extent v = 3 /\
    (["a"%char; nul; "b"%char] = [] -> begin_ v = end_ v) /\
    operator_shl v
      {| store := [live (StdString ["a"%char; nul; "b"%char])]; cout := [] |}
      = Some (tt, {| store := [live (StdString ["a"%char; nul; "b"%char])];
                     cout := ["a"%char; nul; "b"%char] |}).
Proof.
  apply (C10_view_of_string ["a"%char; nul; "b"%char]
           {| store := [live (StdString ["a"%char; nul; "b"%char])]; cout := [] |} 0).
  reflexivity.
Defined.

Section Construction.

Implicit Types (st : state) (cs : list ascii) (o : object) (b n : nat).

Lemma resolve_ctor_inv T :
  resolve_copy_init T = Some ProbingConstructor ->
  exposes T ToView = false /\ ctor_enabled T = true.
Proof.
  unfold resolve_copy_init, viable.
  by destruct (exposes T ToView), (ctor_enabled T).
Qed.

Lemma lookup_fresh (l : list cell) c : (l ++ [c]) !! length l = Some c.
Proof. by rewrite list_lookup_middle. Qed.

Lemma insert_fresh (l : list cell) c c' :
  <[length l := c']> (l ++ [c]) = l ++ [c'].
Proof.
  replace (length l) with (length l + 0) by lia.
  by rewrite insert_app_r.
Qed.

(** The templated constructor, called with a fresh [cheat] on a live
    object: the view it builds, and the state it leaves. *)
Lemma copy_init_ctor_run T a cs st :
  resolve_copy_init T = Some ProbingConstructor ->
  store st !! a = Some (live (StdString cs)) ->
  exists v b o held,
    copy_init T a st =
      Some ((v, [TmpVerify; TmpString (length (store st))]),
            {| store := store st ++ [live (StdString held)];
               cout := cout st ++ ctor_text T |}) /\
    first v = (b, 0) /\ last v = (b, 0 + length (viewed T cs)) /\
    (store st ++ [live (StdString held)]) !! b = Some (live o) /\
    take (length (viewed T cs)) (drop 0 (buffer o)) = viewed T cs /\
    0 + length (viewed T cs) <= length (buffer o) /\
    (select_strategy T = Some OwnedValue ->
       b = length (store st) /\ held = cs).
Proof.
  intros Hres Ha. destruct (resolve_ctor_inv T Hres) as [_ Hen].
  rewrite ctor_enabled_exposes in Hen.
  unfold copy_init. rewrite Hres.
  erewrite bind_run by reflexivity.
  unfold BasicStringView_alien, ctor_text, viewed, diag.
  rewrite select_strategy_chain.
  set (st1 := {| store := store st ++ [live (StdString [])]; cout := cout st |}).
  assert (store st1 !! a = Some (live (StdString cs))) as Ha1
    by (by apply lookup_app_l_Some).
  unfold exposes in *; simpl in *.
  destruct (op_string T) as [d |] eqn:Hs; simpl in *;
    [| destruct (op_cstr T) as [d |] eqn:Hc; simpl in *;
       [| destruct (op_string_ref T) as [d |] eqn:Hr; simpl in *;
          [| discriminate ] ] ].
  - (* the owned-string branch *)
    exists {| first := (length (store st), 0);
              last := (length (store st), 0 + length cs) |},
      (length (store st)), (StdString cs), cs.
    split.
    + erewrite bind_run; [reflexivity |].
      erewrite bind_run by apply put_run.
      erewrite bind_run; cycle 1.
      { unfold operator_string. rewrite Hs.
        erewrite bind_run by apply put_lines_run.
        erewrite bind_run by (by apply object_at_live). reflexivity. }
      erewrite bind_run; cycle 1.
      { unfold assign_string.
        erewrite bind_run by (apply object_at_live; apply lookup_fresh).
        simpl. rewrite insert_fresh. reflexivity. }
      rewrite (string_view_run _ _ cs) by apply lookup_fresh.
      rewrite <- app_assoc. reflexivity.
    + repeat split; try done.
      * apply lookup_fresh.
      * apply string_prefix.
      * simpl. rewrite length_app; simpl. lia.
  - (* the pointer branch *)
    exists {| first := (a, 0); last := (a, 0 + length (until_nul cs)) |},
      a, (StdString cs), [].
    split.
    + erewrite bind_run; [reflexivity |].
      erewrite bind_run; cycle 1.
      { unfold operator_cstr. rewrite Hc.
        erewrite bind_run by apply put_lines_run.
        erewrite bind_run by (by apply object_at_live). reflexivity. }
      unfold BasicStringView_cstr, strlen; simpl.
      erewrite bind_run; cycle 1.
      { erewrite bind_run by (by apply object_at_live). simpl.
        rewrite drop_0, scan_until_nul. reflexivity. }
      reflexivity.
    + repeat split; try done.
      * by rewrite drop_0, until_nul_prefix.
      * simpl. rewrite length_app; simpl.
        pose proof (until_nul_length cs). lia.
  - (* the reference branch *)
    exists {| first := (a, 0); last := (a, 0 + length cs) |},
      a, (StdString cs), [].
    split.
    + erewrite bind_run; [reflexivity |].
      erewrite bind_run; cycle 1.
      { unfold operator_string_ref. rewrite Hr.
        erewrite bind_run by apply put_lines_run. reflexivity. }
      by rewrite (string_view_run _ _ cs).
    + repeat split; try done.
      * apply string_prefix.
      * simpl. rewrite length_app; simpl. lia.
Qed.

(** The end of the full-expression: [~Verify] runs and the string
    bound to [cheat] is released. *)
Lemma destroy_temporaries_run st b o :
  store st !! b = Some (live o) ->
  destroy_all [TmpVerify; TmpString b] st =
    Some (tt, {| store := <[b := dead o]> (store st);
                 cout := cout st ++ line "Killing lifetime extension" |}).
Proof.
  intros Hb. simpl. unfold Verify_dtor.
  erewrite bind_run by apply put_run.
  erewrite bind_run by (by apply end_lifetime_run). reflexivity.
Qed.

End Construction.

(** C3. For a class declaring both the conversion to a reference to its
    string and the conversion to the view, the templated constructor is
    viable too, but the conversion function is the one called: passing an
    object to [f] writes the diagnostics of that function and the line of
    [f], with nothing from the constructor and no temporary to destroy.
    For [MyObject4] the output has [Best choice!] and has no
    [Extending lifetime]. *)
Theorem C3_view_conversion_selected (T : class_decl) (d : list string)
    (cs : list ascii) (st : state) (a : instance) :
  exposes T ToStringRef = true ->
  op_view T = Some d ->
  store st !! a = Some (live (StdString cs)) ->
  ctor_enabled T = true /\
  resolve_copy_init T = Some ConversionFunction /\
  copy_init T a st =
    Some (({| first := (a, 0); last := (a, 0 + length cs) |}, []),
          wrote st (flat d)) /\
  call_f T a st =
    Some (tt, wrote st (flat d ++ chars "F Called with: " ++ cs ++
                        chars "..." ++ [nl])) /\
  exists text,
    output_of (o4 <- declare_object MyLib.MyObject4;;
               call_f MyLib.MyObject4 o4) = Some text /\
    text = string_of_list_ascii
             (line "Best choice!" ++ line "F Called with: Hello world...") /\
    occurs "Best choice!" text = true /\
    occurs "Extending lifetime" text = false.
Proof.
  intros Hr Hv Ha.
  assert (resolve_copy_init T = Some ConversionFunction) as Hres
    by (apply resolve_with_view; unfold exposes; simpl; by rewrite Hv).
  assert (copy_init T a st =
            Some (({| first := (a, 0); last := (a, 0 + length cs) |}, []),
                  wrote st (flat d))) as Hinit.
  { unfold copy_init. rewrite Hres. unfold MyLib.operator_view. rewrite Hv.
    erewrite bind_run; [reflexivity |].
    erewrite bind_run by apply put_lines_run.
    by rewrite (string_view_run _ _ cs). }
  split; [| split; [done | split; [done | split]]].
  - rewrite ctor_enabled_exposes, Hr. by destruct (exposes T ToCStr), (exposes T ToString).
  - unfold call_f. erewrite bind_run by exact Hinit. simpl.
    erewrite bind_run; cycle 1.
    { eapply (f_run _ _ a 0 (length cs) (StdString cs)); [done .. |].
      simpl. rewrite length_app; simpl. lia. }
    simpl. unfold ret. by rewrite string_prefix, wrote_wrote.
  - eexists. split; [reflexivity |]. by vm_compute.
Qed.

(** [MyObject4], declared in the initial state. *)
Lemma C3_view_conversion_selected_witness :
  resolve_copy_init MyLib.MyObject4 = Some ConversionFunction /\
  call_f MyLib.MyObject4 0
    {| store := [live (StdString (chars "Hello world"))]; cout := [] |} =
    Some (tt, {| store := [live (StdString (chars "Hello world"))];
                 cout := line "Best choice!" ++
                         line "F Called with: Hello world..." |}).
Proof.
  destruct (C3_view_conversion_selected MyLib.MyObject4 ["Best choice!"%string]
              (chars "Hello world")
              {| store := [live (StdString (chars "Hello world"))]; cout := [] |}
              0 eq_refl eq_refl eq_refl) as (_ & Hres & _ & Hcall & _).
  split; [exact Hres | exact Hcall].
Defined.

(** C4. For a class whose only conversion is the value-producing one to
    [std::string], passing an object to [f] goes through the templated
    constructor and its owned-string branch: the result of the conversion
    is stored into [cheat], the view ranges over [cheat], and
    [Extending lifetime] is written first, before the diagnostics of the
    operator and before the content of the view. *)
Theorem C4_value_only_extends (T : class_decl) (d : list string)
    (cs : list ascii) (st : state) (a : instance) :
  op_string T = Some d -> op_cstr T = None ->
  op_string_ref T = None -> op_view T = None ->
  store st !! a = Some (live (StdString cs)) ->
  resolve_copy_init T = Some ProbingConstructor /\
  select_strategy T = Some OwnedValue /\
  copy_init T a st =
    Some (({| first := (length (store st), 0);
              last := (length (store st), 0 + length cs) |},
           [TmpVerify; TmpString (length (store st))]),
          {| store := store st ++ [live (StdString cs)];
             cout := cout st ++ line "Extending lifetime" ++ flat d |}) /\
  call_f T a st =
    Some (tt, {| store := store st ++ [dead (StdString cs)];
                 cout := cout st ++ line "Extending lifetime" ++ flat d ++
                         chars "F Called with: " ++ cs ++ chars "..." ++ [nl] ++
                         line "Killing lifetime extension" |}).
Proof.
  intros Hs Hc Hr Hv Ha.
  assert (select_strategy T = Some OwnedValue) as Hsel
    by (rewrite select_strategy_chain; unfold exposes; simpl; by rewrite Hs).
  assert (resolve_copy_init T = Some ProbingConstructor) as Hres.
  { rewrite resolve_without_view by (unfold exposes; simpl; by rewrite Hv).
    rewrite ctor_enabled_exposes. unfold exposes; simpl. by rewrite Hs, Hc. }
  destruct (copy_init_ctor_run T a cs st Hres Ha)
    as (v & b & o & held & Hinit & Hf & Hl & Hb & Htake & Hlen & Hown).
  destruct (Hown Hsel) as [-> ->].
  unfold viewed, ctor_text, diag in *. rewrite Hsel in *.
  cbn [conv_op] in Hinit. rewrite Hs in Hinit.
  destruct v as [vf vl]; simpl in Hf, Hl; subst vf vl.
  split; [done |]. split; [done |]. split; [exact Hinit |].
  unfold call_f. erewrite bind_run by exact Hinit. cbn [fst snd].
  erewrite bind_run; cycle 1.
  { eapply (f_run _ _ (length (store st)) 0 (length cs) (StdString cs));
      [done | done | apply lookup_fresh |].
    simpl. rewrite length_app; simpl. lia. }
  rewrite string_prefix.
  erewrite destroy_temporaries_run by (simpl; apply lookup_fresh).
  unfold wrote; cbn [store cout]. rewrite insert_fresh, <- !app_assoc. reflexivity.
Qed.

(** [MyObject1], declared in the initial state. *)
Lemma C4_value_only_extends_witness :
  call_f MyLib.MyObject1 0
    {| store := [live (StdString (chars "Hello world"))]; cout := [] |} =
    Some (tt, {| store := [live (StdString (chars "Hello world"));
                           dead (StdString (chars "Hello world"))];
                 cout := line "Extending lifetime" ++ line "Needs extension" ++
                         line "F Called with: Hello world..." ++
                         line "Killing lifetime extension" |}).
Proof.
  exact (proj2 (proj2 (proj2
    (C4_value_only_extends MyLib.MyObject1 ["Needs extension"%string]
       (chars "Hello world")
       {| store := [live (StdString (chars "Hello world"))]; cout := [] |}
       0 eq_refl eq_refl eq_refl eq_refl eq_refl)))).
Defined.

(** C7. For every call of the templated constructor, the string bound to
    [cheat] and the [Verify] argument live until the end of the
    full-expression of the call and no longer.  In [f( a )] the string is
    alive while [f] runs, [Killing lifetime extension] is written after
    the line of [f], and the string is released then.  In the declaration
    [MyStd::StringView sanity= a;] of a view that goes through the
    owned-string branch, the view that results points into the string of
    [cheat], which is past its lifetime while the view and the source
    object are not: reading through the view has no defined behaviour. *)
Theorem C7_temporaries_end_with_full_expression (T : class_decl)
    (cs : list ascii) (st : state) (a : instance) :
  resolve_copy_init T = Some ProbingConstructor ->
  store st !! a = Some (live (StdString cs)) ->
  (exists v held st1,
     copy_init T a st =
       Some ((v, [TmpVerify; TmpString (length (store st))]), st1) /\
     store st1 !! length (store st) = Some (live (StdString held)) /\
     f v st1 =
       Some (tt, wrote st1 (chars "F Called with: " ++ viewed T cs ++
                            chars "..." ++ [nl])) /\
     call_f T a st =
       Some (tt, {| store := store st ++ [dead (StdString held)];
                    cout := cout st1 ++
                            (chars "F Called with: " ++ viewed T cs ++
                             chars "..." ++ [nl]) ++
                            line "Killing lifetime extension" |})) /\
  (is_temp_string_convertible T = Some true ->
   exists v st',
     declare_view T a st = Some (v, st') /\
     begin_ v = (length (store st), 0) /\
     end_ v = (length (store st), 0 + length cs) /\
     store st' !! length (store st) = Some (dead (StdString cs)) /\
     store st' !! a = Some (live (StdString cs)) /\
     deref (begin_ v) st' = None /\
     (cs <> [] -> operator_shl v st' = None)).
Proof.
  intros Hres Ha.
  destruct (copy_init_ctor_run T a cs st Hres Ha)
    as (v & b & o & held & Hinit & Hf & Hl & Hb & Htake & Hlen & Hown).
  set (st1 := {| store := store st ++ [live (StdString held)];
                 cout := cout st ++ ctor_text T |}) in *.
  assert (destroy_all [TmpVerify; TmpString (length (store st))] st1 =
            Some (tt, {| store := store st ++ [dead (StdString held)];
                         cout := cout st1 ++ line "Killing lifetime extension" |}))
    as Hend.
  { erewrite destroy_temporaries_run by apply lookup_fresh.
    subst st1; cbn [store cout]. by rewrite insert_fresh. }
  split.
  - exists v, held, st1. split; [exact Hinit |].
    split; [apply lookup_fresh |].
    assert (f v st1 =
              Some (tt, wrote st1 (chars "F Called with: " ++ viewed T cs ++
                                   chars "..." ++ [nl]))) as Hrun.
    { rewrite (f_run st1 v b 0 (length (viewed T cs)) o Hf Hl Hb Hlen).
      by rewrite Htake. }
    split; [exact Hrun |].
    unfold call_f. erewrite bind_run by exact Hinit. cbn [fst snd].
    erewrite bind_run by exact Hrun.
    change (destroy_all [TmpVerify; TmpString (length (store st))]
              (wrote st1 (chars "F Called with: " ++ viewed T cs ++
                          chars "..." ++ [nl])))
      with (destroy_all [TmpVerify; TmpString (length (store st))]
              {| store := store st ++ [live (StdString held)];
                 cout := cout st1 ++ (chars "F Called with: " ++ viewed T cs ++
                                      chars "..." ++ [nl]) |}).
    erewrite destroy_temporaries_run by apply lookup_fresh.
    cbn [store cout]. by rewrite insert_fresh, <- app_assoc.
  - intros Ht.
    assert (select_strategy T = Some OwnedValue) as Hsel
      by (unfold select_strategy; by rewrite Ht).
    destruct (Hown Hsel) as [-> ->].
    unfold viewed in Hl. rewrite Hsel in Hl.
    exists v, {| store := store st ++ [dead (StdString cs)];
                 cout := cout st1 ++ line "Killing lifetime extension" |}.
    assert (forall off,
              deref (length (store st), off)
                {| store := store st ++ [dead (StdString cs)];
                   cout := cout st1 ++ line "Killing lifetime extension" |}
              = None) as Hdangling
      by (intros off; eapply deref_dead; apply lookup_fresh).
    split; [| repeat split].
    + unfold declare_view. erewrite bind_run by exact Hinit. cbn [fst snd].
      erewrite bind_run by exact Hend. reflexivity.
    + exact Hf.
    + exact Hl.
    + apply lookup_fresh.
    + by apply lookup_app_l_Some.
    + unfold begin_. rewrite Hf. apply Hdangling.
    + intros Hne. unfold operator_shl, begin_, end_, copy_to_ostream.
      rewrite Hf, Hl. cbn [fst snd].
      case_decide as Hd; [| reflexivity].
      destruct cs as [| c cs']; [done |].
      replace (0 + length (c :: cs') - 0) with (S (length cs'))
        by (simpl; lia).
      cbn [copy_loop]. apply bind_undefined, Hdangling.
Qed.

(** [MyStd::StringView sanity= o1;] as in Check 3, with [o1] declared in
    the initial state: the view points into the released string. *)
Lemma C7_temporaries_end_with_full_expression_witness :
  exists v st',
    declare_view MyLib.MyObject1 0
      {| store := [live (StdString (chars "Hello world"))]; cout := [] |}
      = Some (v, st') /\
    begin_ v = (1, 0) /\
    end_ v = (1, 11) /\
    store st' !! 1 = Some (dead (StdString (chars "Hello world"))) /\
    store st' !! 0 = Some (live (StdString (chars "Hello world"))) /\
    deref (begin_ v) st' = None /\
    (chars "Hello world" <> [] -> operator_shl v st' = None).
Proof.
  exact (proj2
    (C7_temporaries_end_with_full_expression MyLib.MyObject1
       (chars "Hello world")
       {| store := [live (StdString (chars "Hello world"))]; cout := [] |}
       0 eq_refl eq_refl) eq_refl).
Defined.

(** The run of [main] reaches Check 3 and reads through the dangling view
    there: the model assigns the program no behaviour from that point,
    while the part before it writes the lines below. *)
Example main_before_check_3 :
  output_of (o0 <- declare_object MyLib.MyObject0;;
             o1 <- declare_object MyLib.MyObject1;;
             o2 <- declare_object MyLib.MyObject2;;
             o3 <- declare_object MyLib.MyObject3;;
             o4 <- declare_object MyLib.MyObject4;;
             main_calls o0 o1 o2 o3 o4;;
             check_1;;
             check_2)
  = Some (string_of_list_ascii
            (line "F Called with: Hello..." ++
             line "Killing lifetime extension" ++
             line "Extending lifetime" ++
             line "Needs extension" ++
             line "F Called with: Hello world..." ++
             line "Killing lifetime extension" ++
             line "F Called with: Hello world..." ++
             line "Killing lifetime extension" ++
             line "F Called with: Hello world..." ++
             line "Killing lifetime extension" ++
             line "Best choice!" ++
             line "F Called with: Hello world..." ++
             line "Checked" ++
             line "Checked 2")).
Proof. reflexivity. Qed.

Example main_undefined : main initial = None.
Proof. reflexivity. Qed.

(** Check 4 and the last declaration of [main], run on their own. *)
Example main_after_check_3 :
  output_of (o3 <- declare_object MyLib.MyObject3;;
             o4 <- declare_object MyLib.MyObject4;;
             check_4 o4;;
             direct_init MyLib.MyObject3 o3)
  = Some (string_of_list_ascii
            (line "Check 4 -- this should be a problem..." ++
             line "Best choice!" ++
             line "Checked 4" ++
             line "Killing lifetime extension")).
Proof. reflexivity. Qed.

(** ** Further properties of the constructors, the inserter and [f] *)

Section Inversion.

Implicit Types (st : state) (cs : list ascii) (o : object) (b n : nat).

Lemma bind_inv {A B} (m : M A) (k : A -> M B) st r :
  bind m k st = Some r ->
  exists x st1, m st = Some (x, st1) /\ k x st1 = Some r.
Proof.
  unfold bind. destruct (m st) as [[x st1] |]; [| done]. eauto.
Qed.

Lemma object_at_inv b st o st' :
  object_at b st = Some (o, st') ->
  st' = st /\ store st !! b = Some (live o).
Proof.
  unfold object_at. destruct (store st !! b) as [[o' [|]] |]; try done.
  simpl. by intros [= -> ->].
Qed.

Lemma deref_inv b off st c st' :
  deref (b, off) st = Some (c, st') ->
  st' = st /\ exists o, store st !! b = Some (live o) /\ buffer o !! off = Some c.
Proof.
  unfold deref. intros (o & st1 & Ho & Hk)%bind_inv.
  apply object_at_inv in Ho as [-> Ho]. simpl in Hk.
  destruct (buffer o !! off) as [c' |] eqn:Hc; [| done].
  unfold ret in Hk. simplify_eq. eauto.
Qed.

(** What [strlen] finds: the first terminator. *)
Lemma scan_Some l : forall n,
  scan l = Some n ->
  l !! n = Some nul /\ Forall (fun c => c <> nul) (take n l).
Proof.
  induction l as [| c l IH]; intros n; simpl; [done |].
  destruct (Ascii.eqb_spec c nul) as [-> | Hc].
  - intros [= <-]. by split.
  - destruct (scan l) as [m |]; [| done]. simpl. intros [= <-].
    destruct (IH m eq_refl) as [Hm Hall]. split; [done |].
    simpl. by constructor.
Qed.

Lemma scan_None l : Forall (fun c => c <> nul) l -> scan l = None.
Proof.
  induction 1 as [| c l Hc _ IH]; simpl; [done |].
  destruct (Ascii.eqb_spec c nul); [done |]. by rewrite IH.
Qed.

Lemma until_nul_all cs : Forall (fun c => c <> nul) cs -> until_nul cs = cs.
Proof.
  induction 1 as [| c l Hc _ IH]; simpl; [done |].
  destruct (Ascii.eqb_spec c nul); [done |]. by rewrite IH.
Qed.

Lemma until_nul_stops pre post :
  Forall (fun c => c <> nul) pre -> until_nul (pre ++ nul :: post) = pre.
Proof.
  induction 1 as [| c l Hc _ IH]; simpl; [done |].
  destruct (Ascii.eqb_spec c nul); [done |]. by rewrite IH.
Qed.

Lemma until_nul_clean cs : Forall (fun c => c <> nul) (until_nul cs).
Proof.
  induction cs as [| c l IH]; simpl; [done |].
  destruct (Ascii.eqb_spec c nul); [done |]. by constructor.
Qed.

Lemma until_nul_full cs :
  length (until_nul cs) = length cs -> Forall (fun c => c <> nul) cs.
Proof.
  induction cs as [| c l IH]; simpl; [done |].
  destruct (Ascii.eqb_spec c nul); simpl; [done |].
  intros [= Hl]. constructor; auto.
Qed.

(** The loop of [std::copy] is defined only over characters of one
    object within its lifetime. *)
Lemma copy_loop_bounds n : forall off st b r,
  copy_loop n (b, off) st = Some r ->
  n = 0 \/
  exists o, store st !! b = Some (live o) /\ off + n <= length (buffer o).
Proof.
  induction n as [| n IH]; intros off st b r; [by left |].
  cbn [copy_loop]. intros (c & st1 & Hd & Hk)%bind_inv.
  apply deref_inv in Hd as [-> (o & Ho & Hc)].
  apply bind_inv in Hk as (u & st2 & Hp & Hk).
  rewrite put_run in Hp. simplify_eq.
  right. exists o. split; [done |].
  apply lookup_lt_Some in Hc.
  unfold ptr_add in Hk; cbn [fst snd] in Hk.
  apply IH in Hk as [-> | (o' & Ho' & Hlen)]; [lia |].
  simpl in Ho'. rewrite Ho in Ho'. injection Ho' as <-. lia.
Qed.

Lemma copy_loop_inv n off st b st' :
  copy_loop n (b, off) st = Some (tt, st') ->
  (n = 0 /\ st' = st) \/
  exists o, store st !! b = Some (live o) /\ off + n <= length (buffer o) /\
            st' = wrote st (take n (drop off (buffer o))).
Proof.
  intros Hrun. destruct (copy_loop_bounds _ _ _ _ _ Hrun)
    as [-> | (o & Ho & Hlen)].
  - left. split; [done |]. simpl in Hrun. unfold ret in Hrun. by simplify_eq.
  - right. exists o. rewrite (copy_loop_run _ _ _ _ _ Ho Hlen) in Hrun.
    by simplify_eq.
Qed.

End Inversion.

(** X1. Which classes [f] accepts, and through which function: the
    conversion function whenever the class declares one, the templated
    constructor when it does not and declares one of the three string
    conversions, and nothing when it declares none of the four.  The
    choice is never ambiguous. *)
Theorem X1_accepted_iff_some_conversion (T : class_decl) :
  (accepted T = true <-> exists t, exposes T t = true) /\
  (resolve_copy_init T = Some ConversionFunction <->
     exposes T ToView = true) /\
  (resolve_copy_init T = Some ProbingConstructor <->
     exposes T ToView = false /\
     (exposes T ToString = true \/ exposes T ToCStr = true \/
      exposes T ToStringRef = true)) /\
  (resolve_copy_init T = None <-> forall t, exposes T t = false).
Proof.
  destruct T as [s [ds |] [dc |] [dr |] [dv |]]; vm_compute;
    repeat split; intros;
    repeat match goal with
    | |- _ = _ => done
    | H : _ /\ _ |- _ => destruct H
    | H : _ \/ _ |- _ => destruct H
    | H : exists t : conv_target, _ |- _ => destruct H as [[] ?]
    | H : forall t : conv_target, _ |- _ =>
        first [ by specialize (H ToString) | by specialize (H ToCStr)
              | by specialize (H ToStringRef) | by specialize (H ToView) ]
    | |- forall t : conv_target, _ => by intros []
    | |- exists t : conv_target, _ =>
        first [ by exists ToString | by exists ToCStr
              | by exists ToStringRef | by exists ToView ]
    | |- _ /\ _ => split
    | |- _ \/ _ => first [ by left | by right; left | by right; right ]
    | t : conv_target |- _ => by destruct t
    | _ => done
    end.
Qed.

Section Views.

Implicit Types (st : state) (cs : list ascii) (o : object) (b n : nat).

Lemma until_nul_split cs : exists rest, cs = until_nul cs ++ rest.
Proof.
  induction cs as [| c l [rest IH]]; simpl; [by exists [] |].
  destruct (Ascii.eqb c nul); [by eexists |].
  exists rest. simpl. by f_equal.
Qed.

Lemma slice_length (l : list ascii) off n :
  off + n <= length l -> length (take n (drop off l)) = n.
Proof. intros H. rewrite length_take, length_drop. lia. Qed.

(** The view measured by [strlen] in the buffer of a string. *)
Lemma cstr_view_run st b cs :
  store st !! b = Some (live (StdString cs)) ->
  BasicStringView_cstr (b, 0) st =
    Some ({| first := (b, 0); last := (b, 0 + length (until_nul cs)) |}, st).
Proof.
  intros Hb. unfold BasicStringView_cstr, strlen; simpl.
  erewrite bind_run; [reflexivity |].
  erewrite bind_run by (by apply object_at_live). simpl.
  by rewrite drop_0, scan_until_nul.
Qed.

End Views.

(** X2. Whenever streaming a view is defined, it changes no object and
    writes exactly [end - begin] characters, [begin] and [end] point into
    one object with [begin <= end], and for a range that is not empty the
    characters are those of that object, within its lifetime, from
    [begin] on. *)
Theorem X2_stream_writes_the_range (v : BasicStringView) (st st' : state) :
  operator_shl v st = Some (tt, st') ->
  store st' = store st /\
  (begin_ v).1 = (end_ v).1 /\ (begin_ v).2 <= (end_ v).2 /\
  exists text,
    cout st' = cout st ++ text /\
    length text = extent v /\
    (extent v = 0 \/
     exists o, store st !! (begin_ v).1 = Some (live o) /\
               (end_ v).2 <= length (buffer o) /\
               text = take (extent v) (drop (begin_ v).2 (buffer o))).
Proof.
  destruct v as [[b off] [b' off']].
  unfold operator_shl, copy_to_ostream, extent, begin_, end_; simpl.
  case_decide as Hd; [| done]. destruct Hd as [<- Hle].
  intros [[Hn ->] | (o & Ho & Hlen & ->)]%copy_loop_inv.
  - split; [done |]. split; [done |]. split; [done |].
    exists []. rewrite app_nil_r. split; [done |]. split; [by rewrite Hn |].
    by left.
  - split; [done |]. split; [done |]. split; [done |].
    eexists. split; [reflexivity |].
    split; [apply slice_length; lia |].
    right. exists o. split; [done |]. split; [lia | done].
Qed.

(** A view into the middle of an array: [ell] out of [Hello]. *)
Lemma X2_stream_writes_the_range_witness :
  exists text,
    text = chars "ell" /\
    length text = 3 /\
    cout {| store := [live (CharArray (chars "Hello" ++ [nul]))];
            cout := chars "ell" |} = [] ++ text.
Proof.
  destruct (X2_stream_writes_the_range
              {| first := (0, 1); last := (0, 4) |}
              {| store := [live (CharArray (chars "Hello" ++ [nul]))]; cout := [] |}
              {| store := [live (CharArray (chars "Hello" ++ [nul]))];
                 cout := chars "ell" |}
              eq_refl) as (_ & _ & _ & text & Hout & Hlen & _).
  exists text. split; [exact (eq_sym Hout) |]. split; [exact Hlen | exact Hout].
Defined.

(** X3. Whenever the construction of a view from a pointer to char is
    defined, it changes nothing, the view begins at the pointer and ends
    in the same object at the first terminator from there on: the
    character at [end] is the terminator, and streaming the view is
    defined and writes [end - begin] characters none of which is a
    terminator. *)
Theorem X3_cstr_view_ends_at_terminator (s : ptr) (st st' : state)
    (v : BasicStringView) :
  BasicStringView_cstr s st = Some (v, st') ->
  st' = st /\
  begin_ v = s /\ (end_ v).1 = s.1 /\ s.2 <= (end_ v).2 /\
  deref (end_ v) st = Some (nul, st) /\
  exists text,
    operator_shl v st = Some (tt, wrote st text) /\
    length text = extent v /\
    Forall (fun c => c <> nul) text.
Proof.
  destruct s as [b off]. unfold BasicStringView_cstr, strlen; simpl.
  intros (n & st1 & Hlen & Hret)%bind_inv.
  apply bind_inv in Hlen as (o & st2 & Ho & Hscan).
  apply object_at_inv in Ho as [-> Ho].
  destruct (scan (drop off (buffer o))) as [m |] eqn:Hm; [| done].
  unfold ret in Hscan, Hret.
  injection Hscan as <- <-. injection Hret as <- <-.
  destruct (scan_Some _ _ Hm) as [Hnul Hclean].
  rewrite lookup_drop in Hnul.
  pose proof (lookup_lt_Some _ _ _ Hnul) as Hbound.
  unfold begin_, end_, extent, ptr_add; simpl.
  split; [done |]. split; [done |]. split; [done |]. split; [lia |].
  split.
  - unfold deref; simpl.
    erewrite bind_run by (by apply object_at_live). by rewrite Hnul.
  - exists (take m (drop off (buffer o))).
    split; [| split; [| done]].
    + eapply shl_run; [reflexivity | reflexivity | exact Ho | lia].
    + rewrite slice_length by lia. lia.
Qed.

(** A pointer to the second word of an array holding two. *)
Lemma X3_cstr_view_ends_at_terminator_witness :
  exists text,
    operator_shl {| first := (0, 3); last := (0, 5) |}
      {| store := [live (CharArray (chars "ab" ++ nul :: chars "cd" ++ [nul]))];
         cout := [] |}
    = Some (tt, wrote
        {| store := [live (CharArray (chars "ab" ++ nul :: chars "cd" ++ [nul]))];
           cout := [] |} text) /\
    length text = 2 /\
    Forall (fun c => c <> nul) text.
Proof.
  exact (proj2 (proj2 (proj2 (proj2 (proj2
    (X3_cstr_view_ends_at_terminator (0, 3)
       {| store := [live (CharArray (chars "ab" ++ nul :: chars "cd" ++ [nul]))];
          cout := [] |}
       {| store := [live (CharArray (chars "ab" ++ nul :: chars "cd" ++ [nul]))];
          cout := [] |}
       {| first := (0, 3); last := (0, 5) |} eq_refl)))))).
Defined.

(** X4. The construction of a view from a pointer to char has no defined
    behaviour when no terminator follows the pointer in the array, when
    the pointer is to an object past its lifetime, and when it is to no
    object. *)
Theorem X4_cstr_view_needs_terminator (st : state) (b off : nat) :
  (forall bytes,
     store st !! b = Some (live (CharArray bytes)) ->
     Forall (fun c => c <> nul) (drop off bytes) ->
     BasicStringView_cstr (b, off) st = None) /\
  (forall o, store st !! b = Some (dead o) ->
     BasicStringView_cstr (b, off) st = None) /\
  (store st !! b = None -> BasicStringView_cstr (b, off) st = None).
Proof.
  unfold BasicStringView_cstr, strlen; simpl. split; [| split].
  - intros bytes Hb Hclean. apply bind_undefined.
    erewrite bind_run by (by apply object_at_live). simpl.
    by rewrite scan_None.
  - intros o Hb. apply bind_undefined, bind_undefined.
    by eapply object_at_dead.
  - intros Hb. apply bind_undefined, bind_undefined.
    unfold object_at. by rewrite Hb.
Qed.

(** An array of three characters without a terminator. *)
Lemma X4_cstr_view_needs_terminator_witness :
  BasicStringView_cstr (0, 0)
    {| store := [live (CharArray (chars "abc"))]; cout := [] |} = None.
Proof.
  apply (proj1 (X4_cstr_view_needs_terminator
                  {| store := [live (CharArray (chars "abc"))]; cout := [] |}
                  0 0) (chars "abc")).
  - reflexivity.
  - repeat constructor; discriminate.
Defined.

(** X5. On one string, the view built from its [c_str()] and the view
    built from the string begin at the same place; the first ranges over
    the characters before the first terminator in the string, the second
    over all [size()] characters, so the first is a prefix of the second,
    and they agree exactly when the string holds no terminator. *)
Theorem X5_cstr_view_prefix_of_string_view (cs : list ascii) (st : state)
    (b : nat) :
  store st !! b = Some (live (StdString cs)) ->
  exists vp vs rest,
    BasicStringView_cstr (b, 0) st = Some (vp, st) /\
    BasicStringView_string b st = Some (vs, st) /\
    begin_ vp = begin_ vs /\
    extent vp <= extent vs /\
    (extent vp = extent vs <-> Forall (fun c => c <> nul) cs) /\
    operator_shl vp st = Some (tt, wrote st (until_nul cs)) /\
    operator_shl vs st = Some (tt, wrote st cs) /\
    cs = until_nul cs ++ rest.
Proof.
  intros Hb. destruct (until_nul_split cs) as [rest Hrest].
  exists {| first := (b, 0); last := (b, 0 + length (until_nul cs)) |},
    {| first := (b, 0); last := (b, 0 + length cs) |}, rest.
  pose proof (until_nul_length cs) as Hle.
  split; [by apply cstr_view_run |].
  split; [by apply string_view_run |].
  split; [done |].
  unfold extent, begin_, end_; cbn [first last fst snd].
  split; [lia |]. split; [| split; [| split; [| done]]].
  - split.
    + intros Heq. apply until_nul_full. lia.
    + intros Hclean. by rewrite until_nul_all.
  - erewrite shl_run; [| reflexivity | reflexivity | exact Hb |].
    + by rewrite drop_0, until_nul_prefix.
    + cbn [buffer]. rewrite length_app. change (length [nul]) with 1. lia.
  - erewrite shl_run; [| reflexivity | reflexivity | exact Hb |].
    + by rewrite string_prefix.
    + cbn [buffer]. rewrite length_app. change (length [nul]) with 1. lia.
Qed.

(** A string of three characters, the second a terminator. *)
Lemma X5_cstr_view_prefix_of_string_view_witness :
  exists vp vs,
    BasicStringView_cstr (0, 0)
      {| store := [live (StdString ["a"%char; nul; "b"%char])]; cout := [] |}
    = Some (vp, {| store := [live (StdString ["a"%char; nul; "b"%char])];
                   cout := [] |}) /\
    BasicStringView_string 0
      {| store := [live (StdString ["a"%char; nul; "b"%char])]; cout := [] |}
    = Some (vs, {| store := [live (StdString ["a"%char; nul; "b"%char])];
                   cout := [] |}) /\
    extent vp <= extent vs.
Proof.
  destruct (X5_cstr_view_prefix_of_string_view ["a"%char; nul; "b"%char]
              {| store := [live (StdString ["a"%char; nul; "b"%char])];
                 cout := [] |} 0 eq_refl)
    as (vp & vs & _ & Hp & Hs & _ & Hle & _).
  exists vp, vs. split; [exact Hp |]. split; [exact Hs | exact Hle].
Defined.

Section Strategies.

Implicit Types (st : state) (cs : list ascii) (o : object) (b n : nat).

(** The range the templated constructor measures lies in the buffer of
    a string holding [cs]. *)
Lemma viewed_slice T cs :
  take (length (viewed T cs)) (drop 0 (buffer (StdString cs))) = viewed T cs /\
  0 + length (viewed T cs) <= length (buffer (StdString cs)).
Proof.
  cbn [buffer]. rewrite drop_0, length_app. change (length [nul]) with 1.
  pose proof (until_nul_length cs).
  unfold viewed. destruct (select_strategy T) as [[] |];
    (split; [| lia]); by rewrite ?take_app_length, ?until_nul_prefix.
Qed.

(** The templated constructor on a live object and a fresh [cheat]: the
    owned-string branch builds the view over [cheat], the two others
    over the member [s] of the object. *)
Lemma alien_fresh_run T a cs st :
  ctor_enabled T = true ->
  store st !! a = Some (live (StdString cs)) ->
  BasicStringView_alien T a (length (store st))
    {| store := store st ++ [live (StdString [])]; cout := cout st |} =
  Some ({| first := (if exposes T ToString then length (store st) else a, 0);
           last := (if exposes T ToString then length (store st) else a,
                    0 + length (viewed T cs)) |},
        {| store := store st ++
                    [live (StdString (if exposes T ToString then cs else []))];
           cout := cout st ++ ctor_text T |}).
Proof.
  intros Hen Ha. rewrite ctor_enabled_exposes in Hen.
  unfold BasicStringView_alien, ctor_text, viewed, diag.
  rewrite select_strategy_chain.
  set (st1 := {| store := store st ++ [live (StdString [])]; cout := cout st |}).
  assert (store st1 !! a = Some (live (StdString cs))) as Ha1
    by (by apply lookup_app_l_Some).
  unfold exposes in *; cbn [conv_op] in *.
  destruct (op_string T) as [d |] eqn:Hs;
    [| destruct (op_cstr T) as [d |] eqn:Hc;
       [| destruct (op_string_ref T) as [d |] eqn:Hr; [| discriminate ] ] ].
  - erewrite bind_run by apply put_run.
    erewrite bind_run; cycle 1.
    { unfold operator_string. rewrite Hs.
      erewrite bind_run by apply put_lines_run.
      erewrite bind_run by (by apply object_at_live). reflexivity. }
    erewrite bind_run; cycle 1.
    { unfold assign_string.
      erewrite bind_run by (apply object_at_live; apply lookup_fresh).
      cbn [wrote store cout st1]. rewrite insert_fresh. reflexivity. }
    rewrite (string_view_run _ _ cs) by apply lookup_fresh.
    by rewrite <- app_assoc.
  - erewrite bind_run; cycle 1.
    { unfold operator_cstr. rewrite Hc.
      erewrite bind_run by apply put_lines_run.
      erewrite bind_run by (by apply object_at_live). reflexivity. }
    by rewrite (cstr_view_run _ _ cs).
  - erewrite bind_run; cycle 1.
    { unfold operator_string_ref. rewrite Hr.
      erewrite bind_run by apply put_lines_run. reflexivity. }
    by rewrite (string_view_run _ _ cs).
Qed.

(** The conversion function on a live object. *)
Lemma copy_init_conv_run T a cs st :
  exposes T ToView = true ->
  store st !! a = Some (live (StdString cs)) ->
  copy_init T a st =
    Some (({| first := (a, 0); last := (a, 0 + length cs) |}, []),
          wrote st (flat (diag T ToView))).
Proof.
  intros Hv Ha. unfold copy_init. rewrite (resolve_with_view _ Hv).
  unfold MyLib.operator_view, diag. unfold exposes in Hv. cbn [conv_op] in *.
  destruct (op_view T) as [d |]; [| discriminate].
  erewrite bind_run; [reflexivity |].
  erewrite bind_run by apply put_lines_run.
  by rewrite (string_view_run _ _ cs).
Qed.

(** Copy-initialisation through the templated constructor. *)
Lemma copy_init_alien_run T a cs st :
  resolve_copy_init T = Some ProbingConstructor ->
  store st !! a = Some (live (StdString cs)) ->
  copy_init T a st =
    Some (({| first := (if exposes T ToString then length (store st) else a, 0);
              last := (if exposes T ToString then length (store st) else a,
                       0 + length (viewed T cs)) |},
           [TmpVerify; TmpString (length (store st))]),
          {| store := store st ++
                      [live (StdString (if exposes T ToString then cs else []))];
             cout := cout st ++ ctor_text T |}).
Proof.
  intros Hres Ha. destruct (resolve_ctor_inv T Hres) as [_ Hen].
  unfold copy_init. rewrite Hres.
  erewrite bind_run by reflexivity.
  erewrite bind_run by (by apply alien_fresh_run). reflexivity.
Qed.

(** In the state the templated constructor leaves, the view it built is
    over a live string holding [cs]. *)
Lemma alien_view_live T a cs st held :
  store st !! a = Some (live (StdString cs)) ->
  held = (if exposes T ToString then cs else []) ->
  (store st ++ [live (StdString held)])
    !! (if exposes T ToString then length (store st) else a)
  = Some (live (StdString cs)).
Proof.
  intros Ha ->. destruct (exposes T ToString).
  - apply lookup_fresh.
  - by apply lookup_app_l_Some.
Qed.

(** The statement [f( a );] on a live object of an accepted class. *)
Lemma call_f_run T a cs st :
  accepted T = true ->
  store st !! a = Some (live (StdString cs)) ->
  exists tail,
    call_f T a st =
      Some (tt, {| store := store st ++ tail;
                   cout := cout st ++ call_text T cs |}) /\
    Forall (fun c => alive c = false) tail /\ length tail <= 1.
Proof.
  intros Hacc Ha. unfold call_text, f_text.
  destruct (exposes T ToView) eqn:Hv.
  - exists []. split; [| by split; [constructor | simpl; lia]].
    unfold call_f. erewrite bind_run by (by apply copy_init_conv_run).
    cbn [fst snd].
    erewrite bind_run; cycle 1.
    { eapply (f_run _ _ a 0 (length cs) (StdString cs)); [done .. |].
      cbn [buffer]. rewrite length_app. change (length [nul]) with 1. lia. }
    cbn [destroy_all]. unfold ret.
    by rewrite string_prefix, wrote_wrote, app_nil_r.
  - assert (resolve_copy_init T = Some ProbingConstructor) as Hres.
    { unfold accepted in Hacc. rewrite resolve_without_view in * by done.
      by destruct (ctor_enabled T). }
    destruct (viewed_slice T cs) as [Hslice Hlen].
    eexists [dead (StdString _)].
    split; [| by split; [repeat constructor | simpl; lia]].
    unfold call_f. erewrite bind_run by (by apply copy_init_alien_run).
    cbn [fst snd].
    erewrite bind_run; cycle 1.
    { eapply f_run; [reflexivity | reflexivity | | exact Hlen].
      by apply alien_view_live. }
    rewrite Hslice. unfold wrote at 1; cbn [store cout].
    erewrite destroy_temporaries_run by apply lookup_fresh.
    cbn [store cout]. by rewrite insert_fresh, <- !app_assoc.
Qed.

End Strategies.

Section Dangling.

Implicit Types (st : state) (cs : list ascii) (o : object) (b n : nat).

(** Streaming a view that is not empty and points into an object past
    its lifetime has no defined behaviour. *)
Lemma shl_dangling st v b off n o :
  first v = (b, off) -> last v = (b, off + n) -> n <> 0 ->
  store st !! b = Some (dead o) ->
  operator_shl v st = None.
Proof.
  intros Hf Hl Hn Hb. unfold operator_shl, begin_, end_, copy_to_ostream.
  rewrite Hf, Hl. cbn [fst snd]. case_decide; [| done].
  replace (off + n - off) with n by lia.
  destruct n as [| n]; [done |]. cbn [copy_loop].
  by eapply bind_undefined, deref_dead.
Qed.

Lemma assign_string_run st b cs cs' :
  store st !! b = Some (live (StdString cs)) ->
  assign_string b cs' st =
    Some (tt, {| store := <[b := live (StdString cs')]> (store st);
                 cout := cout st |}).
Proof.
  intros Hb. unfold assign_string.
  by erewrite bind_run by (by apply object_at_live).
Qed.

End Dangling.

(** X6. For every class [f] accepts and every live object of it, the
    statement [f( a );] has defined behaviour, through the owned-string
    branch as well: it writes the diagnostics of the function that built
    the view, the line of [f] and, after a call of the templated
    constructor, the line of [~Verify].  It leaves every object that
    existed before as it was, the source object alive, and at most one
    new object, which is past its lifetime. *)
Theorem X6_call_defined_and_framed (T : class_decl) (cs : list ascii)
    (st : state) (a : instance) :
  accepted T = true ->
  store st !! a = Some (live (StdString cs)) ->
  exists st',
    call_f T a st = Some (tt, st') /\
    cout st' = cout st ++ call_text T cs /\
    take (length (store st)) (store st') = store st /\
    Forall (fun c => alive c = false) (drop (length (store st)) (store st')) /\
    length (store st') <= S (length (store st)) /\
    store st' !! a = Some (live (StdString cs)).
Proof.
  intros Hacc Ha.
  destruct (call_f_run T a cs st Hacc Ha) as (tail & Hrun & Hdead & Hlen).
  eexists. split; [exact Hrun |]. cbn [store cout].
  split; [done |]. split; [by rewrite take_app_length |].
  split; [by rewrite drop_app_length |].
  split; [rewrite length_app; lia |]. by apply lookup_app_l_Some.
Qed.

(** [f( o1 )] for [MyObject1], the class that goes through the
    owned-string branch. *)
Lemma X6_call_defined_and_framed_witness :
  exists st',
    call_f MyLib.MyObject1 0
      {| store := [live (StdString (chars "Hello world"))]; cout := [] |}
    = Some (tt, st') /\
    cout st' = [] ++ call_text MyLib.MyObject1 (chars "Hello world") /\
    store st' !! 0 = Some (live (StdString (chars "Hello world"))).
Proof.
  destruct (X6_call_defined_and_framed MyLib.MyObject1 (chars "Hello world")
              {| store := [live (StdString (chars "Hello world"))]; cout := [] |}
              0 eq_refl eq_refl) as (st' & Hrun & Hout & _ & _ & _ & Ha).
  exists st'. split; [exact Hrun |]. split; [exact Hout | exact Ha].
Defined.

(** X7. For a class the templated constructor serves without the
    owned-string branch, and a string with a terminator inside, [f]
    writes only the characters before the terminator when the class
    declares the conversion to a pointer, also when it declares the
    conversion to a reference as well, and the whole string when it
    declares the conversion to a reference alone. *)
Theorem X7_pointer_branch_truncates (T : class_decl) (pre post : list ascii)
    (st : state) (a : instance) :
  Forall (fun c => c <> nul) pre ->
  exposes T ToView = false ->
  exposes T ToString = false ->
  ctor_enabled T = true ->
  store st !! a = Some (live (StdString (pre ++ nul :: post))) ->
  exists st',
    call_f T a st = Some (tt, st') /\
    cout st' =
      cout st ++ ctor_text T ++
      f_text (if exposes T ToCStr then pre else pre ++ nul :: post) ++
      line "Killing lifetime extension".
Proof.
  intros Hpre Hv Hs Hen Ha.
  assert (accepted T = true) as Hacc.
  { unfold accepted. rewrite resolve_without_view, Hen by done.
    by rewrite select_strategy_chain. }
  destruct (call_f_run T a _ st Hacc Ha) as (tail & Hrun & _).
  eexists. split; [exact Hrun |]. cbn [cout].
  unfold call_text, viewed. rewrite Hv, select_strategy_chain, Hs.
  destruct (exposes T ToCStr); [| done].
  by rewrite until_nul_stops.
Qed.

(** [MyObject0] declares both conversions: of [Hel], a terminator and
    [lo], [f] writes [Hel]. *)
Lemma X7_pointer_branch_truncates_witness :
  exists st',
    call_f MyLib.MyObject0 0
      {| store := [live (StdString (chars "Hel" ++ nul :: chars "lo"))];
         cout := [] |}
    = Some (tt, st') /\
    cout st' =
      [] ++ ctor_text MyLib.MyObject0 ++
      f_text (if exposes MyLib.MyObject0 ToCStr then chars "Hel"
              else chars "Hel" ++ nul :: chars "lo") ++
      line "Killing lifetime extension".
Proof.
  apply (X7_pointer_branch_truncates MyLib.MyObject0 (chars "Hel") (chars "lo")
           {| store := [live (StdString (chars "Hel" ++ nul :: chars "lo"))];
              cout := [] |} 0).
  - repeat constructor; discriminate.
  - reflexivity.
  - reflexivity.
  - reflexivity.
  - reflexivity.
Defined.

(** X8. A view declared from a live object through the conversion
    function of its class, or through the templated constructor without
    the owned-string branch, points into the member [s] of the object:
    after the declaration it can be streamed and gives the characters it
    was built over.  Once the object is destroyed the view dangles:
    reading through it has no defined behaviour. *)
Theorem X8_borrowed_view_lives_with_source (T : class_decl) (cs : list ascii)
    (st : state) (a : instance) :
  accepted T = true ->
  exposes T ToView = true \/ exposes T ToString = false ->
  store st !! a = Some (live (StdString cs)) ->
  exists v st',
    declare_view T a st = Some (v, st') /\
    begin_ v = (a, 0) /\
    end_ v = (a, 0 + length (view_text T cs)) /\
    store st' !! a = Some (live (StdString cs)) /\
    operator_shl v st' = Some (tt, wrote st' (view_text T cs)) /\
    exists st'',
      end_lifetime a st' = Some (tt, st'') /\
      deref (begin_ v) st'' = None /\
      (view_text T cs <> [] -> operator_shl v st'' = None).
Proof.
  intros Hacc Hborrowed Ha.
  assert (exists v st',
            declare_view T a st = Some (v, st') /\
            first v = (a, 0) /\ last v = (a, 0 + length (view_text T cs)) /\
            store st' !! a = Some (live (StdString cs)) /\
            take (length (view_text T cs)) (drop 0 (buffer (StdString cs)))
              = view_text T cs /\
            0 + length (view_text T cs) <= length (buffer (StdString cs)))
    as (v & st' & Hrun & Hf & Hl & Ha' & Hslice & Hlen).
  { unfold view_text. destruct (exposes T ToView) eqn:Hv.
    - eexists _, _. split.
      + unfold declare_view.
        erewrite bind_run by (by apply copy_init_conv_run). reflexivity.
      + repeat split; try done.
        * apply string_prefix.
        * cbn [buffer]. rewrite length_app. change (length [nul]) with 1. lia.
    - destruct Hborrowed as [| Hs]; [done |].
      assert (resolve_copy_init T = Some ProbingConstructor) as Hres.
      { unfold accepted in Hacc. rewrite resolve_without_view in * by done.
        by destruct (ctor_enabled T). }
      destruct (viewed_slice T cs) as [Hslice Hlen].
      eexists _, _. split.
      + unfold declare_view.
        erewrite bind_run by (by apply copy_init_alien_run). cbn [fst snd].
        erewrite bind_run by (apply destroy_temporaries_run, lookup_fresh).
        reflexivity.
      + rewrite Hs. repeat split; try done.
        cbn [store]. rewrite insert_fresh. by apply lookup_app_l_Some. }
  exists v, st'. split; [done |]. split; [done |]. split; [done |].
  split; [done |]. split.
  - erewrite shl_run by done. by rewrite Hslice.
  - pose proof (lookup_lt_Some _ _ _ Ha') as Hbound.
    eexists. split; [by apply end_lifetime_run |].
    assert (<[a := dead (StdString cs)]> (store st') !! a
            = Some (dead (StdString cs))) as Hdead
      by (by apply list_lookup_insert_eq).
    split.
    + unfold begin_. rewrite Hf. by eapply deref_dead.
    + intros Hne. eapply shl_dangling; [exact Hf | exact Hl | | exact Hdead].
      by destruct (view_text T cs).
Qed.

(** [MyObject3], the class with the reference conversion alone. *)
Lemma X8_borrowed_view_lives_with_source_witness :
  exists v st',
    declare_view MyLib.MyObject3 0
      {| store := [live (StdString (chars "Hello world"))]; cout := [] |}
    = Some (v, st') /\
    begin_ v = (0, 0) /\
    operator_shl v st' = Some (tt, wrote st' (chars "Hello world")).
Proof.
  destruct (X8_borrowed_view_lives_with_source MyLib.MyObject3
              (chars "Hello world")
              {| store := [live (StdString (chars "Hello world"))]; cout := [] |}
              0 eq_refl (or_intror eq_refl) eq_refl)
    as (v & st' & Hrun & Hb & _ & _ & Hshl & _).
  exists v, st'. split; [exact Hrun |]. split; [exact Hb | exact Hshl].
Defined.

(** X9. The declaration with an explicit [facepunch] argument goes
    through the templated constructor for every class that satisfies its
    constraint, also one that declares a conversion to the view: it
    writes what the constructor writes and then the line of [~Verify],
    and leaves the string of [cheat] past its lifetime.  The view can be
    streamed afterwards when the class is served without the
    owned-string branch, and dangles when it is served through it. *)
Theorem X9_direct_init_uses_constructor (T : class_decl) (cs : list ascii)
    (st : state) (a : instance) :
  ctor_enabled T = true ->
  store st !! a = Some (live (StdString cs)) ->
  exists v st',
    direct_init T a st = Some (v, st') /\
    cout st' = cout st ++ ctor_text T ++ line "Killing lifetime extension" /\
    store st' =
      store st ++ [dead (StdString (if exposes T ToString then cs else []))] /\
    extent v = length (viewed T cs) /\
    (exposes T ToString = false ->
       begin_ v = (a, 0) /\
       operator_shl v st' = Some (tt, wrote st' (viewed T cs))) /\
    (exposes T ToString = true ->
       begin_ v = (length (store st), 0) /\
       deref (begin_ v) st' = None /\
       (cs <> [] -> operator_shl v st' = None)).
Proof.
  intros Hen Ha. destruct (viewed_slice T cs) as [Hslice Hlen].
  eexists _, _. split.
  { unfold direct_init. erewrite bind_run by reflexivity.
    erewrite bind_run by (by apply alien_fresh_run).
    erewrite bind_run by (apply destroy_temporaries_run, lookup_fresh).
    reflexivity. }
  cbn [store cout]. rewrite insert_fresh.
  split; [by rewrite <- app_assoc |]. split; [done |].
  split; [unfold extent, begin_, end_; cbn [first last fst snd]; lia |].
  split.
  - intros Hs. rewrite Hs. split; [done |].
    erewrite shl_run; [| reflexivity | reflexivity | | exact Hlen].
    + by rewrite Hslice.
    + by apply lookup_app_l_Some.
  - intros Hs. rewrite Hs. split; [done |]. split.
    + eapply deref_dead. apply lookup_fresh.
    + intros Hne.
      eapply shl_dangling; [reflexivity | reflexivity | | apply lookup_fresh].
      unfold viewed. rewrite select_strategy_chain, Hs. by destruct cs.
Qed.

(** [MyObject4] declares a conversion to the view; with the explicit
    argument the constructor runs and [Best choice!] is not written. *)
Lemma X9_direct_init_uses_constructor_witness :
  exists v st',
    direct_init MyLib.MyObject4 0
      {| store := [live (StdString (chars "Hello world"))]; cout := [] |}
    = Some (v, st') /\
    cout st' = [] ++ ctor_text MyLib.MyObject4 ++
               line "Killing lifetime extension" /\
    ctor_text MyLib.MyObject4 = [].
Proof.
  destruct (X9_direct_init_uses_constructor MyLib.MyObject4
              (chars "Hello world")
              {| store := [live (StdString (chars "Hello world"))]; cout := [] |}
              0 eq_refl eq_refl) as (v & st' & Hrun & Hout & _).
  exists v, st'. split; [exact Hrun |]. split; [exact Hout | reflexivity].
Defined.

(** X10. A view built from a string can be streamed, and gives the
    characters of the string, after another object is created, after
    another object is destroyed and after another string is assigned to;
    once its own string is destroyed it dangles. *)
Theorem X10_string_view_follows_its_string (cs : list ascii) (st : state)
    (b : nat) :
  store st !! b = Some (live (StdString cs)) ->
  exists v,
    BasicStringView_string b st = Some (v, st) /\
    (forall o, exists b1 st1,
       new_object o st = Some (b1, st1) /\ b1 <> b /\
       operator_shl v st1 = Some (tt, wrote st1 cs)) /\
    (forall b' o, b' <> b -> store st !! b' = Some (live o) ->
       exists st1,
         end_lifetime b' st = Some (tt, st1) /\
         operator_shl v st1 = Some (tt, wrote st1 cs)) /\
    (forall b' old new, b' <> b ->
       store st !! b' = Some (live (StdString old)) ->
       exists st1,
         assign_string b' new st = Some (tt, st1) /\
         operator_shl v st1 = Some (tt, wrote st1 cs)) /\
    (exists st1,
       end_lifetime b st = Some (tt, st1) /\
       deref (begin_ v) st1 = None /\
       (cs <> [] -> operator_shl v st1 = None)).
Proof.
  intros Hb.
  assert (0 + length cs <= length (buffer (StdString cs))) as Hlen
    by (cbn [buffer]; rewrite length_app; change (length [nul]) with 1; lia).
  assert (forall st1, store st1 !! b = Some (live (StdString cs)) ->
            operator_shl {| first := (b, 0); last := (b, 0 + length cs) |} st1
            = Some (tt, wrote st1 cs)) as Hread.
  { intros st1 Hb1.
    erewrite shl_run; [| reflexivity | reflexivity | exact Hb1 | exact Hlen].
    by rewrite string_prefix. }
  pose proof (lookup_lt_Some _ _ _ Hb) as Hbound.
  exists {| first := (b, 0); last := (b, 0 + length cs) |}.
  split; [by apply string_view_run |]. split; [| split; [| split]].
  - intros o. eexists _, _. split; [reflexivity |]. split; [lia |].
    apply Hread. by apply lookup_app_l_Some.
  - intros b' o Hne Hb'. eexists. split; [by apply end_lifetime_run |].
    apply Hread. cbn [store]. by rewrite list_lookup_insert_ne.
  - intros b' old new Hne Hb'. eexists.
    split; [by eapply assign_string_run |].
    apply Hread. cbn [store]. by rewrite list_lookup_insert_ne.
  - eexists. split; [by apply end_lifetime_run |].
    assert (<[b := dead (StdString cs)]> (store st) !! b
            = Some (dead (StdString cs))) as Hdead
      by (by apply list_lookup_insert_eq).
    split; [by eapply deref_dead |].
    intros Hne.
    eapply shl_dangling; [reflexivity | reflexivity | | exact Hdead].
    by destruct cs.
Qed.

(** The string of Check 2, with another string beside it. *)
Lemma X10_string_view_follows_its_string_witness :
  exists v,
    BasicStringView_string 0
      {| store := [live (StdString (chars "Check 2"));
                   live (StdString (chars "other"))]; cout := [] |}
    = Some (v, {| store := [live (StdString (chars "Check 2"));
                            live (StdString (chars "other"))]; cout := [] |}) /\
    exists st1,
      end_lifetime 1
        {| store := [live (StdString (chars "Check 2"));
                     live (StdString (chars "other"))]; cout := [] |}
      = Some (tt, st1) /\
      operator_shl v st1 = Some (tt, wrote st1 (chars "Check 2")).
Proof.
  destruct (X10_string_view_follows_its_string (chars "Check 2")
              {| store := [live (StdString (chars "Check 2"));
                           live (StdString (chars "other"))]; cout := [] |}
              0 eq_refl) as (v & Hv & _ & Hend & _).
  exists v. split; [exact Hv |].
  exact (Hend 1 (StdString (chars "other")) (fun H => O_S 0 (eq_sym H)) eq_refl).
Defined.

(** ** The trait and the chain, revisited over every template argument *)

Section TraitArguments.



End TraitArguments.

Example trait_of_mutable_only :
  Trait.is_temp_string_convertible
    {| Trait.arg_ops := mutable_only; Trait.arg_const := false;
       Trait.arg_ref := Trait.NoRef |} = Some true /\
  Trait.is_temp_string_convertible
    {| Trait.arg_ops := mutable_only; Trait.arg_const := true;
       Trait.arg_ref := Trait.NoRef |} = Some false.
Proof. split; reflexivity. Qed.




(** C1. For every class the templated constructor accepts, the strategy
    is the first of the chain whose test the class passes: owned-value
    when the class declares [operator std::string], whatever else it
    declares, else borrowed-pointer when it declares the conversion to a
    pointer, else borrowed-reference.  The owned-value branch is selected
    exactly when the class is classified by the trait; the strategy
    selected applies to the class, is the only one selected, and depends
    only on which conversions the class declares.  For a classified
    class the constructor run on a live object writes
    [Extending lifetime] first, stores the result of the conversion into
    [cheat] and builds the view over [cheat]. *)
Theorem C1_owned_value_checked_first (T : class_decl) :
  ctor_enabled T = true ->
  select_strategy T =
    Some (if exposes T ToString then OwnedValue
          else if exposes T ToCStr then BorrowedPointer
          else BorrowedReference) /\
  (select_strategy T = Some OwnedValue <->
     MyStd.is_temp_string_convertible T = Some true) /\
  (exists st, select_strategy T = Some st /\ applicable T st = true /\
     forall st', select_strategy T = Some st' -> st' = st) /\
  (forall T', (forall t, exposes T' t = exposes T t) ->
     select_strategy T' = select_strategy T) /\
  (MyStd.is_temp_string_convertible T = Some true ->
   forall a cs st,
     store st !! a = Some (live (StdString cs)) ->
     BasicStringView_alien T a (length (store st))
       {| store := store st ++ [live (StdString [])]; cout := cout st |} =
     Some ({| first := (length (store st), 0);
              last := (length (store st), 0 + length cs) |},
           {| store := store st ++ [live (StdString cs)];
              cout := cout st ++ line "Extending lifetime" ++
                      flat (diag T ToString) |})).
Proof.
  intros Hen. pose proof Hen as Hex. rewrite ctor_enabled_exposes in Hex.
  split; [apply select_strategy_chain |]. split; [| split; [| split]].
  - rewrite select_strategy_chain, temp_convertible_exposes.
    destruct (exposes T ToString), (exposes T ToCStr); split; congruence.
  - rewrite select_strategy_chain. eexists. split; [reflexivity |].
    split; [| congruence].
    destruct (exposes T ToString) eqn:Hs, (exposes T ToCStr) eqn:Hc,
      (exposes T ToStringRef) eqn:Hr; simpl; try done.
  - intros T' Hsame. rewrite !select_strategy_chain. by rewrite !Hsame.
  - rewrite temp_convertible_exposes. intros [= Hs] a cs st Ha.
    rewrite (alien_fresh_run T a cs st Hen Ha).
    unfold viewed, ctor_text. rewrite select_strategy_chain. by rewrite Hs.
Qed.

(** The class declaring all three conversions gets the owned-value
    branch; [MyObject2], with the pointer conversion alone, the pointer
    branch. *)
Lemma C1_owned_value_checked_first_witness :
  ctor_enabled AllThree = true /\
  exposes AllThree ToStringRef = true /\ exposes AllThree ToCStr = true /\
  select_strategy AllThree = Some OwnedValue /\
  select_strategy MyLib.MyObject2 = Some BorrowedPointer.
Proof.
  split; [reflexivity |]. split; [reflexivity |]. split; [reflexivity |].
  split.
  - exact (proj1 (C1_owned_value_checked_first AllThree eq_refl)).
  - exact (proj1 (C1_owned_value_checked_first MyLib.MyObject2 eq_refl)).
Defined.
